(** * Primal/dual LP checker: a shallow embedding of
      [P3_LEFEBVRE_Romain_Group_B.py]

    The script reads a linear program and a candidate point, checks the
    candidate against the primal constraints, builds the dual program, hands
    the dual to [scipy.optimize.linprog] and compares the two objective
    values.

    Modelling choices.
    - In the embedding of the whole script Python floats are idealised as
      rationals ([Q]): finite values and exact arithmetic.  It carries the
      properties that do not depend on how floats round and compare: the
      dual transform, validation, and the order and the output of the
      stages.
    - The tests of [verify_feasibility] and [check_optimality] are embedded
      a second time over binary64 floats (module [Binary64]), with NaN and
      infinities as Python has them; what is proved about the values these
      two functions compare is proved there.
    - A two-dimensional numpy array is a record carrying its shape and its
      rows; one-dimensional arrays and Python lists are Rocq lists.
    - A Python exception is the [Raise] branch of [outcome].
    - [print] and the calls [main] makes are recorded in an event log that a
      small writer/exception monad threads through [main].
    - [linprog] is an opaque collaborator: a Section variable. *)

From Stdlib Require Import String ZArith QArith Qabs Bool Lia Permutation List.
From Stdlib Require Import Floats.
Import ListNotations.

(** ** Python: exceptions and results *)

(** The argument a validation message names. *)
Inductive field : Type :=
| Field_c
| Field_A
| Field_b
| Field_constraint_signs
| Field_possible_sol.

(** The texts of the [ValueError]s, with their interpolated values. *)
Inductive message : Type :=
| MustHaveEntries (what : field) (expected : Z)
| InvalidConstraintSign (sign : string)
| ShapesNotAligned (n m : nat)
| CannotReshape (size m n : nat).

Inductive exn : Type :=
| ValueError (msg : message)
| IndexError.

Inductive outcome (T : Type) : Type :=
| Return (v : T)
| Raise (e : exn).

Arguments Return {T} v.
Arguments Raise {T} e.

Definition obind {T U : Type} (m : outcome T) (k : T -> outcome U) : outcome U :=
  match m with
  | Return v => k v
  | Raise e => Raise e
  end.

Declare Scope outcome_scope.
Delimit Scope outcome_scope with outcome.
Notation "x <- m ;; k" := (obind m (fun x => k))
  (at level 61, m at next level, right associativity) : outcome_scope.

(** [l[i]] for [0 <= i]; Python raises [IndexError] past the end. *)
Definition getitem {T : Type} (l : list T) (i : nat) : outcome T :=
  match nth_error l i with
  | Some v => Return v
  | None => Raise IndexError
  end.

(** ** numpy: the operations the script uses *)

Module Np.

(** [a < b] on rationals, as a boolean. *)
Definition Qlt_bool (a b : Q) : bool :=
  (Qnum a * QDen b <? Qnum b * QDen a)%Z.

(** A two-dimensional array: its shape and its rows. *)
Record ndarray : Type := mk_ndarray {
  nrows : nat;
  ncols : nat;
  rows : list (list Q)
}.

(** The shape describes the rows. *)
Definition well_formed (a : ndarray) : Prop :=
  length (rows a) = nrows a /\
  Forall (fun r => length r = ncols a) (rows a).

(** [a[i]]: row [i]. *)
Definition row (a : ndarray) (i : nat) : outcome (list Q) :=
  getitem (rows a) i.

(** [a[i][j]]. *)
Definition entry (a : ndarray) (i j : nat) : outcome Q :=
  (r <- row a i ;; getitem r j)%outcome.

Fixpoint chunks (n m : nat) (l : list Q) : list (list Q) :=
  match m with
  | O => []
  | S m' => firstn n l :: chunks n m' (skipn n l)
  end.

(** [np.array(l).reshape(m, n)] for dimensions [m, n >= 0]: row-major,
    [ValueError] unless [l] has [m * n] entries. *)
Definition reshape (l : list Q) (m n : nat) : outcome ndarray :=
  if (length l =? m * n)%nat
  then Return (mk_ndarray m n (chunks n m l))
  else Raise (ValueError (CannotReshape (length l) m n)).

(** [a.T] *)
Definition T (a : ndarray) : ndarray :=
  mk_ndarray (ncols a) (nrows a)
    (map (fun j => map (fun r => nth j r 0%Q) (rows a)) (seq 0 (ncols a))).

(** Unary minus, elementwise. *)
Definition neg (v : list Q) : list Q := map Qopp v.

Definition neg2 (a : ndarray) : ndarray :=
  mk_ndarray (nrows a) (ncols a) (map neg (rows a)).

Fixpoint inner (u v : list Q) : Q :=
  match u, v with
  | x :: u', y :: v' => x * y + inner u' v'
  | _, _ => 0
  end.

(** [np.dot(u, v)] on two one-dimensional arrays. *)
Definition dot (u v : list Q) : outcome Q :=
  if (length u =? length v)%nat
  then Return (inner u v)
  else Raise (ValueError (ShapesNotAligned (length u) (length v))).

(** Defaults of [np.isclose]. *)
Definition rtol : Q := 1 # 100000.
Definition atol : Q := 1 # 100000000.

(** The margin [np.isclose(a, b)] allows around [b]. *)
Definition tolerance (b : Q) : Q := atol + rtol * Qabs b.

(** [np.isclose(a, b)]: [|a - b| <= atol + rtol * |b|]. *)
Definition isclose (a b : Q) : bool :=
  Qle_bool (Qabs (a - b)) (tolerance b).

End Np.

(** ** The script *)

Close Scope Q_scope.
Open Scope string_scope.

(** The namespace [argparse] returns. *)
Record Args : Type := mk_Args {
  num_vars : Z;
  num_constraints : Z;
  c : list Q;
  A : list Q;
  b : list Q;
  constraint_signs : list string;
  possible_sol : list Q;
  type : string
}.

Definition len {T : Type} (l : list T) : Z := Z.of_nat (length l).

(** [validate_inputs]: the five length tests, in the order of the source. *)
Definition validate_inputs (args : Args) : outcome unit :=
  if negb (len (c args) =? num_vars args)%Z then
    Raise (ValueError (MustHaveEntries Field_c (num_vars args)))
  else if negb (len (A args) =? num_constraints args * num_vars args)%Z then
    Raise (ValueError (MustHaveEntries Field_A
                         (num_constraints args * num_vars args)))
  else if negb (len (b args) =? num_constraints args)%Z then
    Raise (ValueError (MustHaveEntries Field_b (num_constraints args)))
  else if negb (len (constraint_signs args) =? num_constraints args)%Z then
    Raise (ValueError (MustHaveEntries Field_constraint_signs
                         (num_constraints args)))
  else if negb (len (possible_sol args) =? num_vars args)%Z then
    Raise (ValueError (MustHaveEntries Field_possible_sol (num_vars args)))
  else Return tt.

(** [reshape_constraints]; the dimensions are those of a validated input,
    hence lengths of lists. *)
Definition reshape_constraints (A : list Q) (num_constraints num_vars : nat)
  : outcome Np.ndarray :=
  Np.reshape A num_constraints num_vars.

(** The loop of [transpose_to_dual]: [dual_signs] grows by [append]. *)
Fixpoint dual_signs_loop (dual_signs constraint_signs : list string)
  : outcome (list string) :=
  match constraint_signs with
  | [] => Return dual_signs
  | sign :: rest =>
      if sign =? "<=" then dual_signs_loop (dual_signs ++ [">="]) rest
      else if sign =? ">=" then dual_signs_loop (dual_signs ++ ["<="]) rest
      else if sign =? "=" then dual_signs_loop (dual_signs ++ ["="]) rest
      else Raise (ValueError (InvalidConstraintSign sign))
  end.

(** [transpose_to_dual]: returns [(dual_c, dual_A, dual_b, dual_signs)]. *)
Definition transpose_to_dual (c : list Q) (A : Np.ndarray) (b : list Q)
    (constraint_signs : list string) (problem_type : string)
  : outcome (list Q * Np.ndarray * list Q * list string) :=
  let dual_b := c in
  let dual_A := Np.T A in
  let dual_c := b in
  (dual_signs <- dual_signs_loop [] constraint_signs ;;
   Return (dual_c, dual_A, dual_b, dual_signs))%outcome.

(** The loop of [verify_feasibility], from index [i] on.  [b[i]] is read
    only behind a matching symbol: Python's [and] evaluates its right
    operand lazily. *)
Fixpoint verify_rows (A : Np.ndarray) (b : list Q) (possible_sol : list Q)
    (i : nat) (constraint_signs : list string) : outcome bool :=
  match constraint_signs with
  | [] => Return true
  | sign :: rest =>
      (r <- Np.row A i ;;
       lhs <- Np.dot r possible_sol ;;
       too_big <- (if sign =? "<="
                   then (bi <- getitem b i ;; Return (Np.Qlt_bool bi lhs))
                   else Return false) ;;
       if too_big : bool then Return false else
       too_small <- (if sign =? ">="
                     then (bi <- getitem b i ;; Return (Np.Qlt_bool lhs bi))
                     else Return false) ;;
       if too_small : bool then Return false else
       not_close <- (if sign =? "="
                     then (bi <- getitem b i ;;
                           Return (negb (Np.isclose lhs bi)))
                     else Return false) ;;
       if not_close : bool then Return false else
       verify_rows A b possible_sol (S i) rest)%outcome
  end.

Definition verify_feasibility (A : Np.ndarray) (b : list Q)
    (constraint_signs : list string) (possible_sol : list Q) : outcome bool :=
  verify_rows A b possible_sol 0 constraint_signs.

(** [check_optimality]: returns [(is_optimal, primal_obj_value,
    dual_obj_value)]. *)
Definition check_optimality (primal_sol dual_sol c b : list Q)
  : outcome (bool * Q * Q) :=
  (primal_obj_value <- Np.dot c primal_sol ;;
   dual_obj_value <- Np.dot b dual_sol ;;
   Return (Np.isclose primal_obj_value dual_obj_value,
           primal_obj_value, dual_obj_value))%outcome.

(** The scenario of the specification. *)
Definition scenario_A : Np.ndarray :=
  Np.mk_ndarray 3 2 [[1; 0]; [0; 2]; [3; 2]]%Q.

(** ** Output and the event log *)

(** The lines the script prints, before formatting. *)
Inductive line : Type :=
| ProblemHeader (is_primal : bool)
| ConstraintLine (coefficients : list Q) (sign : string) (rhs : Q)
| ObjectiveLine (is_primal : bool) (coefficients : list Q)
| FeasibleLine (possible_sol : list Q)
| InfeasibleLine (possible_sol : list Q)
| DualNotSolvedLine
| DualSolutionLine (dual_solution : list Q)
| OptimalLine (primal_obj_value : Q)
| NotOptimalLine (primal_obj_value dual_obj_value : Q).

(** The functions [main] calls after validation. *)
Inductive stage : Type :=
| Reshape
| VerifyFeasibility
| TransposeToDual
| SolveDual
| CheckOptimality.

(** What [scipy.optimize.linprog] returns, as far as the script reads it. *)
Record OptimizeResult : Type := mk_OptimizeResult {
  success : bool;
  x : list Q
}.

Inductive event : Type :=
| Call (s : stage)
| Verdict (feasible : bool)
| Linprog (c : list Q) (A_ub : Np.ndarray) (b_ub : list Q)
    (res : OptimizeResult)
| Print (l : line).

(** A computation that may print, enter stages and raise. *)
Definition io (T : Type) : Type := (outcome T * list event)%type.

Definition ret {T : Type} (v : T) : io T := (Return v, []).

Definition bind {T U : Type} (m : io T) (k : T -> io U) : io U :=
  match m with
  | (Return v, log) => let (r, log') := k v in (r, (log ++ log')%list)
  | (Raise e, log) => (Raise e, log)
  end.

Definition emit (e : event) : io unit := (Return tt, [e]).

Definition lift {T : Type} (o : outcome T) : io T := (o, []).

Declare Scope io_scope.
Delimit Scope io_scope with io.
Notation "x <- m ;; k" := (bind m (fun x => k))
  (at level 61, m at next level, right associativity) : io_scope.
Notation "' pat <- m ;; k" :=
  (bind m (fun v => match v with pat => k end))
  (at level 61, pat pattern, m at next level, right associativity) : io_scope.
Notation "m ;; k" := (bind m (fun _ => k))
  (at level 61, right associativity) : io_scope.

(** The loop of [print_problem]: one line per entry of [b]. *)
Fixpoint print_constraints (A : Np.ndarray) (constraint_signs : list string)
    (i : nat) (b : list Q) : io unit :=
  match b with
  | [] => ret tt
  | bi :: rest =>
      (r <- lift (Np.row A i) ;;
       sign <- lift (getitem constraint_signs i) ;;
       emit (Print (ConstraintLine r sign bi)) ;;
       print_constraints A constraint_signs (S i) rest)%io
  end.

Definition print_problem (c : list Q) (A : Np.ndarray) (b : list Q)
    (constraint_signs : list string) (is_primal : bool) : io unit :=
  (emit (Print (ProblemHeader is_primal)) ;;
   print_constraints A constraint_signs 0 b ;;
   emit (Print (ObjectiveLine is_primal c)))%io.

Section Script.

(** [scipy.optimize.linprog(c, A_ub=..., b_ub=..., method='highs')]. *)
Variable linprog : list Q -> Np.ndarray -> list Q -> OptimizeResult.

(** [solve_dual]: [None] is the failure marker. *)
Definition solve_dual (A_T : Np.ndarray) (b c : list Q)
  : io (option (list Q)) :=
  let A_ub := Np.neg2 A_T in
  let b_ub := Np.neg b in
  let res := linprog c A_ub b_ub in
  (emit (Linprog c A_ub b_ub res) ;;
   if success res then ret (Some (x res))
   else (emit (Print DualNotSolvedLine) ;; ret None))%io.

Definition main (args : Args) : io unit :=
  (lift (validate_inputs args) ;;
   emit (Call Reshape) ;;
   A_matrix <- lift (reshape_constraints (A args)
                       (Z.to_nat (num_constraints args))
                       (Z.to_nat (num_vars args))) ;;
   let b_vector := b args in
   let c_vector := c args in
   let possible_sol := possible_sol args in
   print_problem c_vector A_matrix b_vector (constraint_signs args) true ;;
   emit (Call VerifyFeasibility) ;;
   feasible <- lift (verify_feasibility A_matrix b_vector
                       (constraint_signs args) possible_sol) ;;
   emit (Verdict feasible) ;;
   if feasible : bool then
     emit (Print (FeasibleLine possible_sol)) ;;
     emit (Call TransposeToDual) ;;
     '(dual_c, dual_A, dual_b, dual_signs) <-
        lift (transpose_to_dual c_vector A_matrix b_vector
                (constraint_signs args) (type args)) ;;
     print_problem dual_c dual_A dual_b dual_signs false ;;
     emit (Call SolveDual) ;;
     dual_solution <- solve_dual dual_A dual_b dual_c ;;
     match dual_solution with
     | Some dual_solution =>
         emit (Print (DualSolutionLine dual_solution)) ;;
         emit (Call CheckOptimality) ;;
         '(is_optimal, primal_obj_value, dual_obj_value) <-
            lift (check_optimality possible_sol dual_solution
                    c_vector b_vector) ;;
         if is_optimal : bool
         then emit (Print (OptimalLine primal_obj_value))
         else emit (Print (NotOptimalLine primal_obj_value dual_obj_value))
     | None => ret tt
     end
   else
     emit (Print (InfeasibleLine possible_sol)))%io.

End Script.

(** Two stand-ins for the solver, to run [main] on examples. *)
Definition failing_solver (c : list Q) (A_ub : Np.ndarray) (b_ub : list Q)
  : OptimizeResult :=
  mk_OptimizeResult false [].

Definition constant_solver (y : list Q) (c : list Q) (A_ub : Np.ndarray)
    (b_ub : list Q) : OptimizeResult :=
  mk_OptimizeResult true y.

Definition scenario_args (candidate : list Q) : Args :=
  mk_Args 2 3 [3; 5]%Q [1; 0; 0; 2; 3; 2]%Q [4; 12; 18]%Q
    ["<="; "<="; "<="] candidate "max".

(** ** The specification's vocabulary *)

(** The three relation symbols. *)
Definition valid_sign (sign : string) : Prop :=
  sign = "<=" \/ sign = "=" \/ sign = ">=".

(** [flip] of the specification; nothing is said of other symbols. *)
Definition flip (sign : string) : option string :=
  if sign =? "<=" then Some ">="
  else if sign =? ">=" then Some "<="
  else if sign =? "=" then Some "="
  else None.

(** The verdict on one row, as the three tests of the loop leave it. *)
Definition row_verdict (sign : string) (lhs rhs : Q) : bool :=
  if sign =? "<=" then negb (Np.Qlt_bool rhs lhs)
  else if sign =? ">=" then negb (Np.Qlt_bool lhs rhs)
  else if sign =? "=" then Np.isclose lhs rhs
  else true.

(** The verdict on row [i], read by index. *)
Definition row_verdict_at (A : Np.ndarray) (b : list Q)
    (constraint_signs : list string) (possible_sol : list Q) (i : nat)
  : bool :=
  row_verdict (nth i constraint_signs "")
    (Np.inner (nth i (Np.rows A) []) possible_sol) (nth i b 0%Q).

(** The dimensions [validate_inputs] and [reshape_constraints] establish. *)
Definition matching_dimensions (A : Np.ndarray) (b : list Q)
    (constraint_signs : list string) (possible_sol : list Q) : Prop :=
  Np.well_formed A /\
  Np.nrows A = length b /\
  length constraint_signs = length b /\
  Np.ncols A = length possible_sol.

(** Rows, right-hand sides and symbols reordered by the index list [p]:
    [A[p]], [b[p]] and [[constraint_signs[k] for k in p]]. *)
Definition reorder_rows (p : list nat) (A : Np.ndarray) : Np.ndarray :=
  Np.mk_ndarray (length p) (Np.ncols A)
    (map (fun k => nth k (Np.rows A) []) p).

Definition reorder {T : Type} (d : T) (p : list nat) (l : list T) : list T :=
  map (fun k => nth k l d) p.

(** [A_ub y <= b_ub], row by row. *)
Definition upper_bounds_hold (A_ub : Np.ndarray) (b_ub y : list Q) : bool :=
  forallb (fun rb => Qle_bool (Np.inner (fst rb) y) (snd rb))
    (combine (Np.rows A_ub) b_ub).

(** [A y >= b], row by row. *)
Definition lower_bounds_hold (A : Np.ndarray) (b y : list Q) : bool :=
  forallb (fun rb => Qle_bool (snd rb) (Np.inner (fst rb) y))
    (combine (Np.rows A) b).

(** Projections of the event log. *)
Definition calls (log : list event) : list stage :=
  flat_map (fun e => match e with Call s => [s] | _ => [] end) log.

Definition is_report (l : line) : bool :=
  match l with
  | OptimalLine _ | NotOptimalLine _ _ => true
  | _ => false
  end.

(** Lines of [print_problem]. *)
Definition is_layout (e : event) : bool :=
  match e with
  | Print (ProblemHeader _) | Print (ConstraintLine _ _ _)
  | Print (ObjectiveLine _ _) => true
  | _ => false
  end.

(** The log without the rendering of the problems. *)
Definition skeleton (log : list event) : list event :=
  filter (fun e => negb (is_layout e)) log.

(** [validate_inputs] passed and [reshape_constraints] built [A_matrix]. *)
Definition shaped (args : Args) (A_matrix : Np.ndarray) : Prop :=
  validate_inputs args = Return tt /\
  reshape_constraints (A args) (Z.to_nat (num_constraints args))
    (Z.to_nat (num_vars args)) = Return A_matrix.

(** The log of a run whose candidate passed the feasibility check, up to
    the call of the dual transform. *)
Definition feasible_log (args : Args) : list event :=
  [Call Reshape; Call VerifyFeasibility; Verdict true;
   Print (FeasibleLine (possible_sol args)); Call TransposeToDual].

(** The same, up to the answer [res] of the solver. *)
Definition solved_log (args : Args) (A_matrix : Np.ndarray)
    (res : OptimizeResult) : list event :=
  (feasible_log args ++
   [Call SolveDual;
    Linprog (b args) (Np.neg2 (Np.T A_matrix)) (Np.neg (c args)) res])%list.

(** The runs of [main]: its result and its log without the rendering of
    the problems, one constructor per place a run can end. *)
Inductive pipeline_run
    (linprog : list Q -> Np.ndarray -> list Q -> OptimizeResult)
    (args : Args) : outcome unit -> list event -> Prop :=
| Rejected e :
    validate_inputs args = Raise e ->
    pipeline_run linprog args (Raise e) []
| StoppedShaping e :
    validate_inputs args = Return tt ->
    pipeline_run linprog args (Raise e) [Call Reshape]
| StoppedChecking A_matrix e :
    shaped args A_matrix ->
    verify_feasibility A_matrix (b args) (constraint_signs args)
      (possible_sol args) = Raise e ->
    pipeline_run linprog args (Raise e) [Call Reshape; Call VerifyFeasibility]
| Infeasible A_matrix :
    shaped args A_matrix ->
    verify_feasibility A_matrix (b args) (constraint_signs args)
      (possible_sol args) = Return false ->
    pipeline_run linprog args (Return tt)
      [Call Reshape; Call VerifyFeasibility; Verdict false;
       Print (InfeasibleLine (possible_sol args))]
| StoppedBuildingDual A_matrix e :
    shaped args A_matrix ->
    verify_feasibility A_matrix (b args) (constraint_signs args)
      (possible_sol args) = Return true ->
    pipeline_run linprog args (Raise e) (feasible_log args)
| SolveFailed A_matrix dual_signs res :
    shaped args A_matrix ->
    verify_feasibility A_matrix (b args) (constraint_signs args)
      (possible_sol args) = Return true ->
    transpose_to_dual (c args) A_matrix (b args) (constraint_signs args)
      (type args) = Return (b args, Np.T A_matrix, c args, dual_signs) ->
    res = linprog (b args) (Np.neg2 (Np.T A_matrix)) (Np.neg (c args)) ->
    success res = false ->
    pipeline_run linprog args (Return tt)
      (solved_log args A_matrix res ++ [Print DualNotSolvedLine])
| StoppedComparing A_matrix dual_signs res e :
    shaped args A_matrix ->
    verify_feasibility A_matrix (b args) (constraint_signs args)
      (possible_sol args) = Return true ->
    transpose_to_dual (c args) A_matrix (b args) (constraint_signs args)
      (type args) = Return (b args, Np.T A_matrix, c args, dual_signs) ->
    res = linprog (b args) (Np.neg2 (Np.T A_matrix)) (Np.neg (c args)) ->
    success res = true ->
    check_optimality (possible_sol args) (x res) (c args) (b args) = Raise e ->
    pipeline_run linprog args (Raise e)
      (solved_log args A_matrix res ++
       [Print (DualSolutionLine (x res)); Call CheckOptimality])
| OptimalityChecked A_matrix dual_signs res is_optimal p d :
    shaped args A_matrix ->
    verify_feasibility A_matrix (b args) (constraint_signs args)
      (possible_sol args) = Return true ->
    transpose_to_dual (c args) A_matrix (b args) (constraint_signs args)
      (type args) = Return (b args, Np.T A_matrix, c args, dual_signs) ->
    res = linprog (b args) (Np.neg2 (Np.T A_matrix)) (Np.neg (c args)) ->
    success res = true ->
    check_optimality (possible_sol args) (x res) (c args) (b args) =
      Return (is_optimal, p, d) ->
    pipeline_run linprog args (Return tt)
      (solved_log args A_matrix res ++
       [Print (DualSolutionLine (x res)); Call CheckOptimality;
        Print (if is_optimal then OptimalLine p else NotOptimalLine p d)]).

(** Inputs with a symbol outside [<=], [=], [>=]: one row [x1 != 1]; and
    the same row followed by [x1 <= 0].  The candidate is [x1 = 5]. *)
Definition unknown_sign_args : Args :=
  mk_Args 1 1 [1]%Q [1]%Q [1]%Q ["!="] [5]%Q "max".

Definition unknown_sign_infeasible_args : Args :=
  mk_Args 1 2 [1]%Q [1; 1]%Q [1; 0]%Q ["!="; "<="] [5]%Q "max".

(** The scenario with a relation of each kind. *)
Definition mixed_signs : list string := ["<="; "="; ">="].

(** An input with one objective coefficient for two declared variables. *)
Definition short_objective_args : Args :=
  mk_Args 2 3 [3]%Q [1; 0; 0; 2; 3; 2]%Q [4; 12; 18]%Q
    ["<="; "<="; "<="] [2; 6]%Q "max".

(** Two variables, one constraint. *)
Definition wide_args : Args :=
  mk_Args 2 1 [1; 1]%Q [1; 1]%Q [4]%Q ["<="] [1; 1]%Q "max".

(** The number of constraint lines [print_problem] can render: an index
    needs a row of the matrix and a symbol. *)
Definition printable (A : Np.ndarray) (constraint_signs : list string) : nat :=
  Nat.min (length (Np.rows A)) (length constraint_signs).

(** The line [print_problem] prints for index [i]. *)
Definition rendered_line (A : Np.ndarray) (constraint_signs : list string)
    (b : list Q) (i : nat) : event :=
  Print (ConstraintLine (nth i (Np.rows A) []) (nth i constraint_signs "")
           (nth i b 0%Q)).

(** The matrices [reshape_constraints] builds for [wide_args] and
    [unknown_sign_args]. *)
Definition wide_A : Np.ndarray := Np.mk_ndarray 1 2 [[1; 1]]%Q.

Definition unknown_sign_A : Np.ndarray := Np.mk_ndarray 1 1 [[1]]%Q.

(** ** The numeric tests on binary64 floats

    The tests of [verify_feasibility] and [check_optimality] compare
    computed floats, where a NaN compares false with everything and
    [np.isclose] treats infinities apart.  This module embeds the two
    functions over Rocq's primitive binary64 floats, whose operations are
    those of IEEE 754.  The value [np.dot] returns on two aligned vectors
    depends on the order in which numpy sums the products: it is the
    Section variable [inner]. *)

Module Binary64.

Local Set Warnings "-inexact-float".

(** A two-dimensional array of floats: its shape and its rows. *)
Record ndarray : Type := mk_ndarray {
  nrows : nat;
  ncols : nat;
  rows : list (list float)
}.

Definition well_formed (a : ndarray) : Prop :=
  length (rows a) = nrows a /\
  Forall (fun r => length r = ncols a) (rows a).

(** [a[i]]: row [i]. *)
Definition row (a : ndarray) (i : nat) : outcome (list float) :=
  getitem (rows a) i.

(** Defaults of [np.isclose]: the floats Python reads for [1e-05] and
    [1e-08]. *)
Definition rtol : float := 1e-5.
Definition atol : float := 1e-8.

(** [atol + rtol * abs(b)] *)
Definition tolerance (b : float) : float := (atol + rtol * abs b)%float.

(** [abs(a - b) <= atol + rtol * abs(b)] *)
Definition within_tol (a b : float) : bool :=
  (abs (a - b) <=? tolerance b)%float.

(** [np.isclose(a, b)] on two scalars: the tolerance test for finite
    values; otherwise equality, which holds for equal infinities and never
    for a NaN. *)
Definition isclose (a b : float) : bool :=
  if is_finite a && is_finite b then within_tol a b else (a =? b)%float.

(** One order of summation for [np.dot]: left to right from [0.0]. *)
Fixpoint inner_sequential_from (acc : float) (u v : list float) : float :=
  match u, v with
  | x :: u', y :: v' => inner_sequential_from (acc + x * y)%float u' v'
  | _, _ => acc
  end.

Definition inner_sequential (u v : list float) : float :=
  inner_sequential_from 0%float u v.

Section Script.

(** The value of [np.dot(u, v)] on one-dimensional arrays of one length. *)
Variable inner : list float -> list float -> float.

(** [np.dot(u, v)] *)
Definition dot (u v : list float) : outcome float :=
  if (length u =? length v)%nat
  then Return (inner u v)
  else Raise (ValueError (ShapesNotAligned (length u) (length v))).

(** The loop of [verify_feasibility], from index [i] on. *)
Fixpoint verify_rows (A : ndarray) (b : list float)
    (possible_sol : list float) (i : nat) (constraint_signs : list string)
  : outcome bool :=
  match constraint_signs with
  | [] => Return true
  | sign :: rest =>
      (r <- row A i ;;
       lhs <- dot r possible_sol ;;
       too_big <- (if sign =? "<="
                   then (bi <- getitem b i ;; Return (bi <? lhs)%float)
                   else Return false) ;;
       if too_big : bool then Return false else
       too_small <- (if sign =? ">="
                     then (bi <- getitem b i ;; Return (lhs <? bi)%float)
                     else Return false) ;;
       if too_small : bool then Return false else
       not_close <- (if sign =? "="
                     then (bi <- getitem b i ;;
                           Return (negb (isclose lhs bi)))
                     else Return false) ;;
       if not_close : bool then Return false else
       verify_rows A b possible_sol (S i) rest)%outcome
  end.

Definition verify_feasibility (A : ndarray) (b : list float)
    (constraint_signs : list string) (possible_sol : list float)
  : outcome bool :=
  verify_rows A b possible_sol 0 constraint_signs.

(** [check_optimality]: returns [(is_optimal, primal_obj_value,
    dual_obj_value)]. *)
Definition check_optimality (primal_sol dual_sol c b : list float)
  : outcome (bool * float * float) :=
  (primal_obj_value <- dot c primal_sol ;;
   dual_obj_value <- dot b dual_sol ;;
   Return (isclose primal_obj_value dual_obj_value,
           primal_obj_value, dual_obj_value))%outcome.

(** *** The vocabulary of the claims *)

(** None of the three tests of the loop fires on [lhs sign rhs].  A symbol
    outside [<=], [>=], [=] is tested by none. *)
Definition no_test_fires (sign : string) (lhs rhs : float) : Prop :=
  (sign = "<=" -> (rhs <? lhs)%float = false) /\
  (sign = ">=" -> (lhs <? rhs)%float = false) /\
  (sign = "=" -> isclose lhs rhs = true).


(** Row [i] exists and has the property [holds] between
    [lhs = dot(constraints[i], point)] and [rhs[i]]. *)
Definition row_has (holds : string -> float -> float -> Prop)
    (constraints : ndarray) (rhs : list float) (relations : list string)
    (point : list float) (i : nat) : Prop :=
  exists r sign rhs_i lhs,
    row constraints i = Return r /\
    getitem relations i = Return sign /\
    getitem rhs i = Return rhs_i /\
    dot r point = Return lhs /\
    holds sign lhs rhs_i.

(** No test fires on row [i]. *)
Definition row_passes := row_has no_test_fires.



(** The verdict on one row, as the three tests of the loop leave it. *)
Definition row_verdict (sign : string) (lhs rhs : float) : bool :=
  if sign =? "<=" then negb (rhs <? lhs)%float
  else if sign =? ">=" then negb (lhs <? rhs)%float
  else if sign =? "=" then isclose lhs rhs
  else true.

Definition row_verdict_at (A : ndarray) (b : list float)
    (constraint_signs : list string) (possible_sol : list float) (i : nat)
  : bool :=
  row_verdict (nth i constraint_signs "")
    (inner (nth i (rows A) []) possible_sol) (nth i b 0%float).


End Script.

(** The dimensions [validate_inputs] and [reshape_constraints] establish. *)
Definition matching_dimensions (A : ndarray) (b : list float)
    (constraint_signs : list string) (possible_sol : list float) : Prop :=
  well_formed A /\
  nrows A = length b /\
  length constraint_signs = length b /\
  ncols A = length possible_sol.

(** The scenario of the specification, in floats. *)
Definition scenario_A : ndarray :=
  mk_ndarray 3 2 [[1; 0]; [0; 2]; [3; 2]]%float.

(** A float whose tenfold overflows. *)
Definition huge : float := 1e308.


(** One row [x1 != 1]. *)
Definition unknown_sign_A : ndarray := mk_ndarray 1 1 [[1]]%float.

End Binary64.

(** The NaN and the finite values of the specification of binary64. *)
Definition SFis_nan (s : spec_float) : bool :=
  match s with S754_nan => true | _ => false end.

Definition SFis_finite (s : spec_float) : bool :=
  match s with S754_zero _ | S754_finite _ _ _ => true | _ => false end.


(** ** The scenarios of the specification *)

Example scenario_reshape :
  reshape_constraints [1; 0; 0; 2; 3; 2]%Q 3 2 = Return scenario_A.
Proof. reflexivity. Qed.

Example scenario_feasible :
  verify_feasibility scenario_A [4; 12; 18]%Q ["<="; "<="; "<="] [2; 6]%Q
  = Return true.
Proof. reflexivity. Qed.

Example scenario_infeasible :
  verify_feasibility scenario_A [4; 12; 18]%Q ["<="; "<="; "<="] [5; 5]%Q
  = Return false.
Proof. reflexivity. Qed.

Example scenario_dual :
  transpose_to_dual [3; 5]%Q scenario_A [4; 12; 18]%Q ["<="; "<="; "<="] "max"
  = Return ([4; 12; 18]%Q,
            Np.mk_ndarray 2 3 [[1; 0; 3]; [0; 2; 2]]%Q,
            [3; 5]%Q,
            [">="; ">="; ">="]).
Proof. reflexivity. Qed.

Example scenario_run_optimal :
  main (constant_solver [0; 3 # 2; 1]%Q) (scenario_args [2; 6]%Q) =
  (Return tt,
   [ Call Reshape;
     Print (ProblemHeader true);
     Print (ConstraintLine [1; 0]%Q "<=" 4);
     Print (ConstraintLine [0; 2]%Q "<=" 12);
     Print (ConstraintLine [3; 2]%Q "<=" 18);
     Print (ObjectiveLine true [3; 5]%Q);
     Call VerifyFeasibility;
     Verdict true;
     Print (FeasibleLine [2; 6]%Q);
     Call TransposeToDual;
     Print (ProblemHeader false);
     Print (ConstraintLine [1; 0; 3]%Q ">=" 3);
     Print (ConstraintLine [0; 2; 2]%Q ">=" 5);
     Print (ObjectiveLine false [4; 12; 18]%Q);
     Call SolveDual;
     Linprog [4; 12; 18]%Q
       (Np.mk_ndarray 2 3 [[-(1); -0; -(3)]; [-0; -(2); -(2)]]%Q)
       [-(3); -(5)]%Q
       (mk_OptimizeResult true [0; 3 # 2; 1]%Q);
     Print (DualSolutionLine [0; 3 # 2; 1]%Q);
     Call CheckOptimality;
     Print (OptimalLine (Np.inner [3; 5] [2; 6])%Q) ]).
Proof. reflexivity. Qed.

Example scenario_run_infeasible :
  main failing_solver (scenario_args [5; 5]%Q) =
  (Return tt,
   [ Call Reshape;
     Print (ProblemHeader true);
     Print (ConstraintLine [1; 0]%Q "<=" 4);
     Print (ConstraintLine [0; 2]%Q "<=" 12);
     Print (ConstraintLine [3; 2]%Q "<=" 18);
     Print (ObjectiveLine true [3; 5]%Q);
     Call VerifyFeasibility;
     Verdict false;
     Print (InfeasibleLine [5; 5]%Q) ]).
Proof. reflexivity. Qed.

(** ** Arithmetic on rationals *)


Lemma inner_neg (r y : list Q) : (Np.inner (Np.neg r) y == - Np.inner r y)%Q.
Proof.
  revert y. induction r as [|a r IH]; intros [|v y]; simpl; try reflexivity.
  rewrite IH. ring.
Qed.

Lemma valid_sign_dec (sign : string) : {valid_sign sign} + {~ valid_sign sign}.
Proof.
  unfold valid_sign.
  destruct (string_dec sign "<="); [left; tauto|].
  destruct (string_dec sign "="); [left; tauto|].
  destruct (string_dec sign ">="); [left; tauto|].
  right. tauto.
Qed.

(** ** The feasibility loop *)

Lemma getitem_nth {T : Type} (l : list T) (i : nat) (d : T) :
  i < length l -> getitem l i = Return (nth i l d).
Proof.
  intro H. unfold getitem. rewrite (nth_error_nth' l d H). reflexivity.
Qed.

Lemma getitem_Return {T : Type} (l : list T) (i : nat) (v : T) :
  getitem l i = Return v <-> nth_error l i = Some v.
Proof.
  unfold getitem. destruct (nth_error l i); split; congruence.
Qed.

Lemma dot_inner (u v : list Q) :
  length u = length v -> Np.dot u v = Return (Np.inner u v).
Proof.
  intro H. unfold Np.dot. rewrite H, Nat.eqb_refl. reflexivity.
Qed.

Lemma well_formed_row_length (A : Np.ndarray) (i : nat) :
  Np.well_formed A -> i < length (Np.rows A) ->
  length (nth i (Np.rows A) []) = Np.ncols A.
Proof.
  intros [_ Hrows] Hi. rewrite Forall_forall in Hrows.
  apply Hrows, nth_In, Hi.
Qed.


(** One pass of the loop body: the three tests amount to [row_verdict]. *)
Lemma verify_rows_step (A : Np.ndarray) (b possible_sol : list Q) (i : nat)
    (sign : string) (rest : list string) :
  Np.well_formed A ->
  Np.ncols A = length possible_sol ->
  i < length (Np.rows A) ->
  i < length b ->
  verify_rows A b possible_sol i (sign :: rest) =
  if row_verdict sign (Np.inner (nth i (Np.rows A) []) possible_sol)
       (nth i b 0%Q)
  then verify_rows A b possible_sol (S i) rest
  else Return false.
Proof.
  intros Hwf Hcols Hrow Hb. cbn [verify_rows].
  unfold Np.row. rewrite (getitem_nth _ _ [] Hrow). cbn [obind].
  rewrite dot_inner
    by (rewrite (well_formed_row_length _ _ Hwf Hrow); exact Hcols).
  cbn [obind]. rewrite (getitem_nth _ _ 0%Q Hb).
  unfold row_verdict.
  destruct (String.eqb_spec sign "<=") as [-> | _]; cbn [obind].
  - destruct (Np.Qlt_bool _ _); reflexivity.
  - destruct (String.eqb_spec sign ">=") as [-> | _]; cbn [obind].
    + destruct (Np.Qlt_bool _ _); reflexivity.
    + destruct (String.eqb_spec sign "=") as [-> | _]; cbn [obind].
      * destruct (Np.isclose _ _); reflexivity.
      * reflexivity.
Qed.

(** The loop from index [length done] on, over the symbols left. *)
Lemma verify_rows_verdicts (A : Np.ndarray) (b possible_sol : list Q)
    (rest done : list string) :
  Np.well_formed A ->
  Np.ncols A = length possible_sol ->
  length done + length rest <= length (Np.rows A) ->
  length done + length rest <= length b ->
  verify_rows A b possible_sol (length done) rest =
  Return (forallb (row_verdict_at A b (done ++ rest) possible_sol)
            (seq (length done) (length rest))).
Proof.
  intros Hwf Hcols. revert done.
  induction rest as [|sign rest IH]; intros done Hrows Hb.
  - reflexivity.
  - cbn [length] in Hrows, Hb.
    rewrite verify_rows_step by (assumption || lia).
    cbn [length seq forallb].
    unfold row_verdict_at at 1. rewrite nth_middle.
    destruct (row_verdict sign _ _); cbn [andb]; [|reflexivity].
    specialize (IH (done ++ [sign])%list).
    rewrite length_app, <- app_assoc in IH. cbn [length app] in IH.
    rewrite Nat.add_1_r in IH. apply IH; lia.
Qed.

(** With matching dimensions the check returns, and returns the
    conjunction of the row verdicts. *)
Lemma verify_feasibility_verdicts (A : Np.ndarray) (b : list Q)
    (constraint_signs : list string) (possible_sol : list Q) :
  matching_dimensions A b constraint_signs possible_sol ->
  verify_feasibility A b constraint_signs possible_sol =
  Return (forallb (row_verdict_at A b constraint_signs possible_sol)
            (seq 0 (length constraint_signs))).
Proof.
  intros (Hwf & Hrows & Hsigns & Hcols).
  unfold verify_feasibility.
  apply (verify_rows_verdicts A b possible_sol constraint_signs [] Hwf Hcols).
  - destruct Hwf as [Hlen _]. cbn [length]. lia.
  - cbn [length]. lia.
Qed.

(** ** Reordering the rows *)

Lemma reorder_length {T : Type} (d : T) (p : list nat) (l : list T) :
  length (reorder d p l) = length p.
Proof. apply length_map. Qed.

Lemma reorder_nth {T : Type} (d : T) (p : list nat) (l : list T) (k : nat) :
  k < length p -> nth k (reorder d p l) d = nth (nth k p 0) l d.
Proof.
  intro Hk. unfold reorder.
  rewrite (nth_indep _ d (nth 0 l d)) by (rewrite length_map; exact Hk).
  apply (map_nth (fun j => nth j l d)).
Qed.

Lemma reordered_dimensions (A : Np.ndarray) (b : list Q)
    (constraint_signs : list string) (possible_sol : list Q) (p : list nat) :
  matching_dimensions A b constraint_signs possible_sol ->
  Permutation p (seq 0 (length constraint_signs)) ->
  matching_dimensions (reorder_rows p A) (reorder 0%Q p b)
    (reorder "" p constraint_signs) possible_sol.
Proof.
  intros (Hwf & Hrows & Hsigns & Hcols) Hp.
  unfold matching_dimensions, Np.well_formed, reorder_rows.
  cbn [Np.rows Np.nrows Np.ncols]. rewrite !reorder_length, length_map.
  repeat split; try reflexivity; [|exact Hcols].
  apply Forall_forall. intros r Hr. apply in_map_iff in Hr.
  destruct Hr as (k & <- & Hk).
  apply well_formed_row_length; [exact Hwf|].
  apply (Permutation_in _ Hp), in_seq in Hk. destruct Hwf. lia.
Qed.

Lemma reordered_verdict (A : Np.ndarray) (b : list Q)
    (constraint_signs : list string) (possible_sol : list Q) (p : list nat)
    (k : nat) :
  k < length p ->
  row_verdict_at (reorder_rows p A) (reorder 0%Q p b)
    (reorder "" p constraint_signs) possible_sol k =
  row_verdict_at A b constraint_signs possible_sol (nth k p 0).
Proof.
  intro Hk. unfold row_verdict_at, reorder_rows. cbn [Np.rows].
  rewrite !reorder_nth by exact Hk.
  change (map (fun j => nth j (Np.rows A) []) p)
    with (reorder [] p (Np.rows A)).
  rewrite reorder_nth by exact Hk. reflexivity.
Qed.

(** A conjunction over the indices does not depend on the order in which a
    permutation visits them. *)
Lemma forallb_reindexed (g : nat -> bool) (p : list nat) (n : nat) :
  Permutation p (seq 0 n) ->
  forallb (fun k => g (nth k p 0)) (seq 0 n) = forallb g (seq 0 n).
Proof.
  intro Hp. pose proof (Permutation_length Hp) as Hlen.
  rewrite length_seq in Hlen.
  apply eq_true_iff_eq. rewrite !forallb_forall. split; intros H j Hj.
  - apply (Permutation_in _ (Permutation_sym Hp)) in Hj.
    destruct (In_nth _ _ 0 Hj) as (k & Hk & <-).
    apply H, in_seq. lia.
  - apply H, (Permutation_in _ Hp), nth_In. apply in_seq in Hj. lia.
Qed.

(** ** Reordering the constraints: claim C8 *)

(** C8. Applying one permutation to the constraint rows, the right-hand
    sides and the relation symbols leaves the feasibility verdict
    unchanged. *)
Theorem verify_feasibility_reordered (A : Np.ndarray) (b : list Q)
    (constraint_signs : list string) (possible_sol : list Q) (p : list nat) :
  matching_dimensions A b constraint_signs possible_sol ->
  Permutation p (seq 0 (length constraint_signs)) ->
  verify_feasibility (reorder_rows p A) (reorder 0%Q p b)
    (reorder "" p constraint_signs) possible_sol =
  verify_feasibility A b constraint_signs possible_sol.
Proof.
  intros Hdim Hp.
  rewrite (verify_feasibility_verdicts _ _ _ _
             (reordered_dimensions _ _ _ _ _ Hdim Hp)).
  rewrite (verify_feasibility_verdicts _ _ _ _ Hdim).
  f_equal. rewrite reorder_length.
  pose proof (Permutation_length Hp) as Hlen. rewrite length_seq in Hlen.
  rewrite Hlen in *.
  rewrite <- (forallb_reindexed
                (row_verdict_at A b constraint_signs possible_sol) p _ Hp).
  apply eq_true_iff_eq. rewrite !forallb_forall.
  split; intros H k Hk; specialize (H k Hk); apply in_seq in Hk;
    cbv beta in H |- *.
  - rewrite <- reordered_verdict by lia. exact H.
  - rewrite reordered_verdict by lia. exact H.
Qed.

(** ** The dual transform: claims C1 and C9 *)

Lemma T_well_formed (A : Np.ndarray) :
  Np.well_formed A -> Np.well_formed (Np.T A).
Proof.
  intros [Hlen _]. unfold Np.well_formed, Np.T. cbn [Np.rows Np.nrows Np.ncols].
  split.
  - rewrite length_map, length_seq. reflexivity.
  - apply Forall_forall. intros r Hr. apply in_map_iff in Hr.
    destruct Hr as (j & <- & _). rewrite length_map. exact Hlen.
Qed.

Lemma T_entry (A : Np.ndarray) (i j : nat) :
  Np.well_formed A -> i < Np.ncols A -> j < Np.nrows A ->
  exists v, Np.entry (Np.T A) i j = Return v /\ Np.entry A j i = Return v.
Proof.
  intros Hwf Hi Hj. pose proof Hwf as [Hlen _].
  assert (Hrow : j < length (Np.rows A)) by lia.
  exists (nth i (nth j (Np.rows A) []) 0%Q).
  unfold Np.entry, Np.row, Np.T. cbn [Np.rows]. split.
  - unfold getitem at 1.
    rewrite nth_error_map, nth_error_seq.
    replace (i <? Np.ncols A)%nat with true by (symmetry; apply Nat.ltb_lt, Hi).
    cbn [option_map obind Nat.add].
    unfold getitem. rewrite nth_error_map.
    rewrite (nth_error_nth' _ [] Hrow). reflexivity.
  - rewrite (getitem_nth _ _ [] Hrow). cbn [obind].
    apply getitem_nth. rewrite well_formed_row_length; assumption.
Qed.

(** The loop appends one flipped symbol per primal symbol, in order. *)
Lemma dual_signs_loop_flips (constraint_signs dual_signs : list string) :
  Forall valid_sign constraint_signs ->
  exists flipped,
    dual_signs_loop dual_signs constraint_signs =
      Return (dual_signs ++ flipped)%list /\
    Forall2 (fun sign dual => flip sign = Some dual) constraint_signs flipped.
Proof.
  intro Hvalid. revert dual_signs.
  induction Hvalid as [|sign rest Hsign _ IH]; intro dual_signs.
  - exists []. rewrite app_nil_r. split; [reflexivity | constructor].
  - assert (Hstep : exists dual,
               flip sign = Some dual /\
               dual_signs_loop dual_signs (sign :: rest) =
               dual_signs_loop (dual_signs ++ [dual]) rest).
    { destruct Hsign as [-> | [-> | ->]]; eexists; split; reflexivity. }
    destruct Hstep as (dual & Hflip & ->).
    destruct (IH (dual_signs ++ [dual])%list) as (flipped & -> & Hall).
    exists (dual :: flipped). rewrite <- app_assoc. split; [reflexivity|].
    constructor; assumption.
Qed.

Lemma Forall2_nth_error {T U : Type} (R : T -> U -> Prop) (l : list T)
    (l' : list U) (i : nat) (v : T) :
  Forall2 R l l' -> nth_error l i = Some v ->
  exists w, nth_error l' i = Some w /\ R v w.
Proof.
  intro H. revert i. induction H as [|a a' l l' Ha _ IH]; intros [|i] Hi;
    cbn in Hi |- *; try discriminate.
  - injection Hi as <-. eauto.
  - apply IH, Hi.
Qed.

(** C1. For a primal program with [M] constraint rows over [N] variables
    and symbols among [<=], [=], [>=], the dual transform returns: as dual
    objective the primal right-hand side (length [M]); as dual matrix the
    transpose of the primal matrix (shape [N] by [M], entry [[i][j]] equal
    to primal entry [[j][i]]); as dual right-hand side the primal objective
    (length [N]); and dual relations with
    [dualRelations[i] = flip(relations[i])], index by index. *)
Theorem transpose_to_dual_is_dual (c : list Q) (A : Np.ndarray) (b : list Q)
    (constraint_signs : list string) (problem_type : string) (M N : nat) :
  Np.well_formed A ->
  Np.nrows A = M ->
  Np.ncols A = N ->
  length c = N ->
  length b = M ->
  length constraint_signs = M ->
  Forall valid_sign constraint_signs ->
  exists dual_signs,
    transpose_to_dual c A b constraint_signs problem_type =
      Return (b, Np.T A, c, dual_signs) /\
    length b = M /\
    Np.well_formed (Np.T A) /\
    Np.nrows (Np.T A) = N /\
    Np.ncols (Np.T A) = M /\
    (forall i j, i < N -> j < M ->
       exists v, Np.entry (Np.T A) i j = Return v /\
                 Np.entry A j i = Return v) /\
    length c = N /\
    length dual_signs = M /\
    (forall i, i < M ->
       exists sign dual,
         getitem constraint_signs i = Return sign /\
         getitem dual_signs i = Return dual /\
         flip sign = Some dual).
Proof.
  intros Hwf HM HN Hc Hb Hsigns Hvalid.
  destruct (dual_signs_loop_flips constraint_signs [] Hvalid)
    as (dual_signs & Hloop & Hflips).
  exists dual_signs. unfold transpose_to_dual. rewrite Hloop. cbn [obind app].
  repeat split; try assumption.
  - apply T_well_formed, Hwf.
  - apply T_well_formed, Hwf.
  - intros i j Hi Hj. apply T_entry; [exact Hwf | lia | lia].
  - rewrite <- (Forall2_length Hflips). exact Hsigns.
  - intros i Hi.
    assert (Hlt : i < length constraint_signs) by lia.
    pose proof (nth_error_nth' constraint_signs "" Hlt) as Hs.
    destruct (Forall2_nth_error _ _ _ _ _ Hflips Hs) as (dual & Hd & Hflip).
    exists (nth i constraint_signs ""), dual.
    rewrite !getitem_Return. auto.
Qed.

(** C9. The dual transform does not look at the optimisation direction:
    with ['max'] and with ['min'], and with any two values of the argument,
    it returns the same dual objective, matrix, right-hand side and
    relations, or raises the same exception. *)
Theorem transpose_to_dual_ignores_direction (c : list Q) (A : Np.ndarray)
    (b : list Q) (constraint_signs : list string) :
  transpose_to_dual c A b constraint_signs "max" =
  transpose_to_dual c A b constraint_signs "min" /\
  forall direction direction' : string,
    transpose_to_dual c A b constraint_signs direction =
    transpose_to_dual c A b constraint_signs direction'.
Proof. split; reflexivity. Qed.

(** ** The solver call: claim C5 *)

Lemma Qle_bool_neg (u v : Q) : Qle_bool (- u) (- v) = Qle_bool v u.
Proof.
  apply eq_true_iff_eq. rewrite !Qle_bool_iff. split; intro H.
  - apply Qopp_le_compat in H. rewrite !Qopp_involutive in H. exact H.
  - apply Qopp_le_compat, H.
Qed.

Lemma negated_bounds (rows : list (list Q)) (b y : list Q) :
  forallb (fun rb => Qle_bool (Np.inner (fst rb) y) (snd rb))
    (combine (map Np.neg rows) (Np.neg b)) =
  forallb (fun rb => Qle_bool (snd rb) (Np.inner (fst rb) y))
    (combine rows b).
Proof.
  revert b. induction rows as [|r rows IH]; intros [|bi b]; cbn; try reflexivity.
  rewrite IH. f_equal.
  rewrite (Qleb_comp _ _ (inner_neg r y) _ _ (Qeq_refl (- bi))).
  apply Qle_bool_neg.
Qed.

Section Solver.

Variable linprog : list Q -> Np.ndarray -> list Q -> OptimizeResult.

(** C5. [solve_dual] calls the solver once, with the objective [c]
    unchanged and with the negated matrix and the negated right-hand side
    as upper-bound constraints; [-A_T y <= -b] holds for exactly the
    points [y] with [A_T y >= b].  A solution is returned on success, the
    failure marker and a message otherwise. *)
Theorem solve_dual_negates_constraints (A_T : Np.ndarray) (b c : list Q) :
  let res := linprog c (Np.neg2 A_T) (Np.neg b) in
  solve_dual linprog A_T b c =
    (Return (if success res then Some (x res) else None),
     Linprog c (Np.neg2 A_T) (Np.neg b) res ::
     (if success res then [] else [Print DualNotSolvedLine])) /\
  forall y : list Q,
    upper_bounds_hold (Np.neg2 A_T) (Np.neg b) y =
    lower_bounds_hold A_T b y.
Proof.
  cbv zeta. split.
  - unfold solve_dual.
    destruct (success (linprog c (Np.neg2 A_T) (Np.neg b))); reflexivity.
  - intro y. apply negated_bounds.
Qed.

(** ** Validation: claim C6 *)

(** C6. When a declared dimension is violated (objective length, flat
    coefficient length, right-hand-side length, symbol count or candidate
    length), [validate_inputs] raises a [ValueError] on the entry count and
    [main] raises it with an empty log: nothing was printed, no matrix was
    built, and neither the feasibility check, the dual transform, the
    solver nor the optimality check was called. *)
Theorem main_rejects_bad_dimensions (args : Args) :
  len (c args) <> num_vars args \/
  len (A args) <> (num_constraints args * num_vars args)%Z \/
  len (b args) <> num_constraints args \/
  len (constraint_signs args) <> num_constraints args \/
  len (possible_sol args) <> num_vars args ->
  exists what expected,
    validate_inputs args =
      Raise (ValueError (MustHaveEntries what expected)) /\
    main linprog args =
      (Raise (ValueError (MustHaveEntries what expected)), []).
Proof.
  intro Hbad. unfold main, validate_inputs.
  destruct (Z.eqb_spec (len (c args)) (num_vars args)) as [Hc|Hc];
    cbn [negb]; [|do 2 eexists; split; reflexivity].
  destruct (Z.eqb_spec (len (A args))
              (num_constraints args * num_vars args)) as [HA|HA];
    cbn [negb]; [|do 2 eexists; split; reflexivity].
  destruct (Z.eqb_spec (len (b args)) (num_constraints args)) as [Hb|Hb];
    cbn [negb]; [|do 2 eexists; split; reflexivity].
  destruct (Z.eqb_spec (len (constraint_signs args)) (num_constraints args))
    as [Hs|Hs]; cbn [negb]; [|do 2 eexists; split; reflexivity].
  destruct (Z.eqb_spec (len (possible_sol args)) (num_vars args))
    as [Hp|Hp]; cbn [negb]; [|do 2 eexists; split; reflexivity].
  exfalso. tauto.
Qed.

End Solver.

(** ** The shape of a run: claim C7 *)

Lemma skeleton_app (log log' : list event) :
  skeleton (log ++ log') = (skeleton log ++ skeleton log')%list.
Proof. apply filter_app. Qed.

Lemma In_skeleton (e : event) (log : list event) :
  is_layout e = false -> In e log <-> In e (skeleton log).
Proof.
  intro H. unfold skeleton. rewrite filter_In, H. cbn. tauto.
Qed.

Lemma print_constraints_skeleton (A : Np.ndarray)
    (constraint_signs : list string) (b : list Q) (i : nat) :
  skeleton (snd (print_constraints A constraint_signs i b)) = [].
Proof.
  revert i. induction b as [|bi rest IH]; intro i; [reflexivity|].
  cbn [print_constraints]. unfold lift, emit.
  destruct (Np.row A i) as [r|e]; [|reflexivity].
  destruct (getitem constraint_signs i) as [sign|e]; [|reflexivity].
  specialize (IH (S i)). cbn [bind].
  destruct (print_constraints A constraint_signs (S i) rest) as [[[]|e] log];
    cbn [snd app] in IH |- *; cbn [skeleton filter is_layout negb]; exact IH.
Qed.

Lemma print_problem_skeleton (c : list Q) (A : Np.ndarray) (b : list Q)
    (constraint_signs : list string) (is_primal : bool) :
  skeleton (snd (print_problem c A b constraint_signs is_primal)) = [].
Proof.
  unfold print_problem, emit. cbn [bind].
  pose proof (print_constraints_skeleton A constraint_signs b 0) as H.
  destruct (print_constraints A constraint_signs 0 b) as [[[]|e] log];
    cbn [snd app bind] in H |- *; cbn [skeleton filter is_layout negb].
  - fold (skeleton (log ++ [Print (ObjectiveLine is_primal c)])).
    rewrite skeleton_app, H. reflexivity.
  - exact H.
Qed.

Lemma calls_skeleton (log : list event) : calls (skeleton log) = calls log.
Proof.
  unfold calls, skeleton.
  induction log as [|e log IH]; [reflexivity|].
  destruct e as [s|v|c A_ub b_ub res|l];
    try (cbn [filter is_layout negb flat_map app]; rewrite IH; reflexivity).
  destruct l; cbn [filter is_layout negb flat_map app]; exact IH.
Qed.

Lemma report_in_skeleton (l : line) (log : list event) :
  is_report l = true -> In (Print l) log -> In (Print l) (skeleton log).
Proof.
  intros Hl Hin.
  assert (Hlayout : is_layout (Print l) = false)
    by (destruct l; (discriminate Hl || reflexivity)).
  apply (proj1 (In_skeleton (Print l) log Hlayout)), Hin.
Qed.

Lemma no_report_in_skeleton (log : list event) :
  (forall l, In (Print l) (skeleton log) -> is_report l = false) ->
  forall l, In (Print l) log -> is_report l = false.
Proof.
  intros H l Hin. destruct (is_report l) eqn:E; [|reflexivity].
  exfalso. apply report_in_skeleton in Hin; [|exact E].
  apply H in Hin. congruence.
Qed.

Lemma bind_fst {T U : Type} (m : io T) (k : T -> io U) :
  fst (bind m k) =
  match fst m with
  | Return v => fst (k v)
  | Raise e => Raise e
  end.
Proof.
  destruct m as [[v|e] log]; cbn [bind fst]; [|reflexivity].
  destruct (k v); reflexivity.
Qed.

Lemma bind_snd {T U : Type} (m : io T) (k : T -> io U) :
  snd (bind m k) =
  (snd m ++ match fst m with
            | Return v => snd (k v)
            | Raise _ => []
            end)%list.
Proof.
  destruct m as [[v|e] log]; cbn [bind fst snd].
  - destruct (k v); reflexivity.
  - rewrite app_nil_r. reflexivity.
Qed.

(** One statement of [main] executed: its result and log, then the rest. *)
Ltac run_statement :=
  rewrite bind_fst, bind_snd, skeleton_app;
  cbn [lift emit ret fst snd skeleton filter app is_layout negb].

Ltac run_print_problem :=
  rewrite bind_fst, bind_snd, skeleton_app, print_problem_skeleton;
  cbn [app].

(** The same for the log alone. *)
Ltac log_statement :=
  rewrite bind_snd, skeleton_app;
  cbn [lift emit ret fst snd skeleton filter app is_layout negb].

Section Runs.

Variable linprog : list Q -> Np.ndarray -> list Q -> OptimizeResult.

Lemma solve_dual_run (A_T : Np.ndarray) (b c : list Q) :
  solve_dual linprog A_T b c =
  (Return (if success (linprog c (Np.neg2 A_T) (Np.neg b))
           then Some (x (linprog c (Np.neg2 A_T) (Np.neg b)))
           else None),
   Linprog c (Np.neg2 A_T) (Np.neg b) (linprog c (Np.neg2 A_T) (Np.neg b)) ::
   (if success (linprog c (Np.neg2 A_T) (Np.neg b))
    then []
    else [Print DualNotSolvedLine])).
Proof.
  unfold solve_dual. cbv zeta.
  destruct (success (linprog c (Np.neg2 A_T) (Np.neg b))); reflexivity.
Qed.

(** Every run of [main] is one of the runs of [pipeline_run]. *)
Lemma main_pipeline_run (args : Args) :
  pipeline_run linprog args (fst (main linprog args))
    (skeleton (snd (main linprog args))).
Proof.
  unfold main. run_statement.
  destruct (validate_inputs args) as [[]|e] eqn:Hvalid;
    [|apply Rejected; exact Hvalid].
  do 2 run_statement.
  destruct (reshape_constraints _ _ _) as [A_matrix|e] eqn:Hshape;
    [|apply StoppedShaping; exact Hvalid].
  assert (Hshaped : shaped args A_matrix) by (split; assumption).
  run_print_problem.
  destruct (fst (print_problem _ _ _ _ _)) as [[]|e];
    [|apply StoppedShaping; exact Hvalid].
  do 2 run_statement.
  destruct (verify_feasibility _ _ _ _) as [[|]|e] eqn:Hcheck;
    [| |apply (StoppedChecking _ _ _ _ Hshaped Hcheck)].
  2: { run_statement. apply (Infeasible _ _ _ Hshaped Hcheck). }
  do 4 run_statement.
  destruct (transpose_to_dual _ _ _ _ _) as [dual|e] eqn:Hdual;
    [|apply (StoppedBuildingDual _ _ _ _ Hshaped Hcheck)].
  assert (Hdual' : exists dual_signs,
             dual = (b args, Np.T A_matrix, c args, dual_signs)).
  { unfold transpose_to_dual in Hdual.
    destruct (dual_signs_loop _ _) as [dual_signs|]; [|discriminate Hdual].
    injection Hdual as <-. eexists. reflexivity. }
  destruct Hdual' as (dual_signs & ->).
  run_print_problem.
  destruct (fst (print_problem _ _ _ _ _)) as [[]|e];
    [|apply (StoppedBuildingDual _ _ _ _ Hshaped Hcheck)].
  do 2 run_statement. rewrite solve_dual_run. cbn [fst snd].
  set (res := linprog (b args) (Np.neg2 (Np.T A_matrix)) (Np.neg (c args))).
  destruct (success res) eqn:Hres;
    cbn [skeleton filter app is_layout negb ret snd].
  2: { apply (SolveFailed _ _ _ _ _ Hshaped Hcheck Hdual eq_refl Hres). }
  do 3 run_statement.
  destruct (check_optimality _ _ _ _) as [[[is_optimal p] d]|e] eqn:Hopt.
  2: { apply (StoppedComparing _ _ _ _ _ _ Hshaped Hcheck Hdual eq_refl
                Hres Hopt). }
  pose proof (OptimalityChecked _ _ _ _ _ _ _ _ Hshaped Hcheck Hdual eq_refl
                Hres Hopt) as Hrun.
  destruct is_optimal; exact Hrun.
Qed.

End Runs.

(** ** Validated inputs reach the feasibility verdict *)

Lemma chunks_well_formed (n m : nat) (l : list Q) :
  length l = m * n ->
  length (Np.chunks n m l) = m /\
  Forall (fun r => length r = n) (Np.chunks n m l).
Proof.
  revert l. induction m as [|m IH]; intros l Hl; cbn [Np.chunks].
  - split; [reflexivity | constructor].
  - cbn [Nat.mul] in Hl.
    destruct (IH (skipn n l)) as [Hlen Hrows];
      [rewrite length_skipn; lia|].
    split; [cbn [length]; congruence|].
    constructor; [rewrite length_firstn; lia | exact Hrows].
Qed.

Lemma validate_inputs_Return (args : Args) :
  validate_inputs args = Return tt ->
  len (c args) = num_vars args /\
  len (A args) = (num_constraints args * num_vars args)%Z /\
  len (b args) = num_constraints args /\
  len (constraint_signs args) = num_constraints args /\
  len (possible_sol args) = num_vars args.
Proof.
  unfold validate_inputs.
  destruct (Z.eqb_spec (len (c args)) (num_vars args));
    cbn [negb]; [|discriminate].
  destruct (Z.eqb_spec (len (A args))
              (num_constraints args * num_vars args));
    cbn [negb]; [|discriminate].
  destruct (Z.eqb_spec (len (b args)) (num_constraints args));
    cbn [negb]; [|discriminate].
  destruct (Z.eqb_spec (len (constraint_signs args)) (num_constraints args));
    cbn [negb]; [|discriminate].
  destruct (Z.eqb_spec (len (possible_sol args)) (num_vars args));
    cbn [negb]; [|discriminate].
  auto.
Qed.

(** After validation the matrix is built and the dimensions match. *)
Lemma validated_shaped (args : Args) :
  validate_inputs args = Return tt ->
  exists A_matrix,
    shaped args A_matrix /\
    matching_dimensions A_matrix (b args) (constraint_signs args)
      (possible_sol args).
Proof.
  intro Hvalid.
  destruct (validate_inputs_Return args Hvalid)
    as (Hc & HA & Hb & Hsigns & Hsol).
  unfold len in *.
  assert (HM : Z.to_nat (num_constraints args) = length (b args)) by lia.
  assert (HN : Z.to_nat (num_vars args) = length (c args)) by lia.
  assert (Hflat : length (A args) = length (b args) * length (c args))
    by nia.
  exists (Np.mk_ndarray (length (b args)) (length (c args))
            (Np.chunks (length (c args)) (length (b args)) (A args))).
  split.
  - split; [exact Hvalid|].
    unfold reshape_constraints, Np.reshape. rewrite HM, HN, Hflat.
    rewrite Nat.eqb_refl. reflexivity.
  - unfold matching_dimensions, Np.well_formed. cbn [Np.rows Np.nrows Np.ncols].
    destruct (chunks_well_formed _ _ _ Hflat) as [Hlen Hrows].
    repeat split; try assumption; lia.
Qed.

Lemma print_constraints_returns (A : Np.ndarray)
    (constraint_signs : list string) (b : list Q) (i : nat) :
  i + length b <= length (Np.rows A) ->
  i + length b <= length constraint_signs ->
  fst (print_constraints A constraint_signs i b) = Return tt.
Proof.
  revert i. induction b as [|bi rest IH]; intros i Hrows Hsigns;
    [reflexivity|].
  cbn [length] in Hrows, Hsigns. cbn [print_constraints].
  assert (Hrow : i < length (Np.rows A)) by lia.
  assert (Hsign : i < length constraint_signs) by lia.
  unfold Np.row.
  rewrite (getitem_nth _ _ [] Hrow), (getitem_nth _ _ "" Hsign).
  repeat (rewrite bind_fst; cbn [lift emit fst]).
  apply IH; lia.
Qed.

Lemma print_problem_returns (c : list Q) (A : Np.ndarray) (b : list Q)
    (constraint_signs : list string) (is_primal : bool) :
  length b <= length (Np.rows A) ->
  length b <= length constraint_signs ->
  fst (print_problem c A b constraint_signs is_primal) = Return tt.
Proof.
  intros Hrows Hsigns. unfold print_problem.
  rewrite bind_fst. cbn [emit fst]. rewrite bind_fst.
  rewrite print_constraints_returns by (cbn [Nat.add]; assumption).
  reflexivity.
Qed.

(** Sort out the events an [In] hypothesis offers. *)
Ltac event_cases :=
  repeat match goal with
  | H : False |- _ => destruct H
  | H : _ \/ _ |- _ => destruct H
  | H : @eq event _ _ |- _ =>
      discriminate H || (injection H; clear H; intros; subst)
  end.

Section ShortCircuit.

Variable linprog : list Q -> Np.ndarray -> list Q -> OptimizeResult.

(** A run on validated inputs builds the matrix, renders the primal
    problem and obtains a verdict from the feasibility check. *)
Lemma validated_run_reaches_verdict (args : Args) :
  validate_inputs args = Return tt ->
  exists A_matrix verdict,
    shaped args A_matrix /\
    verify_feasibility A_matrix (b args) (constraint_signs args)
      (possible_sol args) = Return verdict /\
    In (Verdict verdict) (snd (main linprog args)).
Proof.
  intro Hvalid.
  destruct (validated_shaped args Hvalid) as (A_matrix & Hshaped & Hdim).
  pose proof (verify_feasibility_verdicts _ _ _ _ Hdim) as Hcheck.
  exists A_matrix. eexists. split; [exact Hshaped|]. split; [exact Hcheck|].
  apply In_skeleton; [reflexivity|].
  destruct Hshaped as [_ Hshape].
  destruct Hdim as ((Hlen & _) & Hrows & Hsigns & _).
  unfold main. log_statement. rewrite Hvalid. do 2 log_statement.
  rewrite Hshape.
  rewrite bind_snd, skeleton_app, print_problem_skeleton. cbn [app].
  rewrite print_problem_returns by lia.
  do 2 log_statement. rewrite Hcheck. log_statement.
  right. right. left. reflexivity.
Qed.

(** What the terminal states of [pipeline_run] exclude. *)
Lemma pipeline_run_short_circuits (args : Args) (o : outcome unit)
    (log : list event) :
  pipeline_run linprog args o log ->
  NoDup (calls log) /\
  (forall verdict, In (Verdict verdict) log ->
     exists A_matrix,
       shaped args A_matrix /\
       verify_feasibility A_matrix (b args) (constraint_signs args)
         (possible_sol args) = Return verdict) /\
  (forall c A_ub b_ub res, In (Linprog c A_ub b_ub res) log ->
     res = linprog c A_ub b_ub) /\
  (In (Verdict false) log ->
     o = Return tt /\
     In (Print (InfeasibleLine (possible_sol args))) log /\
     ~ In (Call TransposeToDual) log /\
     ~ In (Call SolveDual) log /\
     ~ In (Call CheckOptimality) log /\
     (forall c A_ub b_ub res, ~ In (Linprog c A_ub b_ub res) log) /\
     (forall l, In (Print l) log -> is_report l = false)) /\
  (forall c A_ub b_ub res,
     In (Linprog c A_ub b_ub res) log -> success res = false ->
     o = Return tt /\
     In (Print DualNotSolvedLine) log /\
     ~ In (Call CheckOptimality) log /\
     (forall l, In (Print l) log -> is_report l = false)) /\
  (forall l, In (Print l) log -> is_report l = true ->
     o = Return tt /\
     In (Verdict true) log /\
     ~ In (Verdict false) log /\
     (exists c A_ub b_ub res,
        In (Linprog c A_ub b_ub res) log /\ success res = true) /\
     ~ In (Print DualNotSolvedLine) log /\
     In (Call CheckOptimality) log).
Proof.
  intro Hrun.
  destruct Hrun; unfold solved_log, feasible_log;
    cbn [app In calls flat_map].
  all: split; [repeat constructor; cbn [In]; intuition discriminate|].
  all: split; [intros verdict Hin; intuition (try discriminate);
               match goal with
               | H : Verdict _ = Verdict _ |- _ => injection H as <-
               end; eauto|].
  all: split; [intros c0 A_ub b_ub res0 Hin; intuition (try discriminate);
               match goal with
               | H : Linprog _ _ _ _ = Linprog _ _ _ _ |- _ =>
                   injection H as <- <- <- <-
               end; assumption|].
  all: repeat split; unfold not; intros; event_cases; cbn [is_report] in *;
    try discriminate; try congruence; try reflexivity;
    try solve [cbn [In]; auto 20];
    try solve [do 4 eexists; split; [cbn [In]; auto 20 | assumption]].
  all: destruct is_optimal; discriminate.
Qed.

(** C7. A run of [main] enters each stage at most once, and short-circuits:
    when the feasibility check returned [false], [main] returns after the
    infeasibility message, and the dual transform, the solver and the
    optimality check were never called and no report was printed; when the
    solver reported failure, [main] returns after the failure message, and
    the optimality check was never called and no report was printed; a
    report is printed only by a run whose candidate was feasible and whose
    solver call succeeded.  A run on validated inputs reaches a verdict,
    and the verdicts and solver results in the log are those
    [verify_feasibility] and [linprog] returned. *)
Theorem main_short_circuits (args : Args) :
  let run := main linprog args in
  let log := snd run in
  NoDup (calls log) /\
  (validate_inputs args = Return tt ->
     exists verdict, In (Verdict verdict) log) /\
  (forall verdict, In (Verdict verdict) log ->
     exists A_matrix,
       shaped args A_matrix /\
       verify_feasibility A_matrix (b args) (constraint_signs args)
         (possible_sol args) = Return verdict) /\
  (forall c A_ub b_ub res, In (Linprog c A_ub b_ub res) log ->
     res = linprog c A_ub b_ub) /\
  (In (Verdict false) log ->
     fst run = Return tt /\
     In (Print (InfeasibleLine (possible_sol args))) log /\
     ~ In (Call TransposeToDual) log /\
     ~ In (Call SolveDual) log /\
     ~ In (Call CheckOptimality) log /\
     (forall c A_ub b_ub res, ~ In (Linprog c A_ub b_ub res) log) /\
     (forall l, In (Print l) log -> is_report l = false)) /\
  (forall c A_ub b_ub res,
     In (Linprog c A_ub b_ub res) log -> success res = false ->
     fst run = Return tt /\
     In (Print DualNotSolvedLine) log /\
     ~ In (Call CheckOptimality) log /\
     (forall l, In (Print l) log -> is_report l = false)) /\
  (forall l, In (Print l) log -> is_report l = true ->
     fst run = Return tt /\
     In (Verdict true) log /\
     ~ In (Verdict false) log /\
     (exists c A_ub b_ub res,
        In (Linprog c A_ub b_ub res) log /\ success res = true) /\
     ~ In (Print DualNotSolvedLine) log /\
     In (Call CheckOptimality) log).
Proof.
  cbv zeta.
  destruct (pipeline_run_short_circuits _ _ _ (main_pipeline_run linprog args))
    as (Hnodup & Hverdict & Hsolver & Hinfeasible & Hfailed & Hreport).
  set (log := snd (main linprog args)) in *.
  assert (Hin : forall e, is_layout e = false ->
                  In e log <-> In e (skeleton log))
    by (intros e He; apply In_skeleton, He).
  split; [rewrite <- calls_skeleton; exact Hnodup|].
  split; [intro Hvalid;
          destruct (validated_run_reaches_verdict args Hvalid)
            as (_ & verdict & _ & _ & Hv); exists verdict; exact Hv|].
  split; [intros verdict Hv; apply Hverdict, Hin; [reflexivity | exact Hv]|].
  split; [intros c0 A_ub b_ub res Hres; apply Hsolver, Hin;
          [reflexivity | exact Hres]|].
  split; [|split].
  - intro Hv. apply Hin in Hv; [|reflexivity].
    destruct (Hinfeasible Hv) as (Ho & Hmsg & Hd & Hs & Hc & Hl & Hr).
    split; [exact Ho|]. split; [apply Hin; [reflexivity | exact Hmsg]|].
    repeat split.
    + intro H. apply Hd, Hin; [reflexivity | exact H].
    + intro H. apply Hs, Hin; [reflexivity | exact H].
    + intro H. apply Hc, Hin; [reflexivity | exact H].
    + intros c0 A_ub b_ub res H.
      apply (Hl c0 A_ub b_ub res), Hin; [reflexivity | exact H].
    + apply no_report_in_skeleton, Hr.
  - intros c0 A_ub b_ub res Hres Hfail.
    apply Hin in Hres; [|reflexivity].
    destruct (Hfailed _ _ _ _ Hres Hfail) as (Ho & Hmsg & Hc & Hr).
    split; [exact Ho|]. split; [apply Hin; [reflexivity | exact Hmsg]|].
    split; [intro H; apply Hc, Hin; [reflexivity | exact H]|].
    apply no_report_in_skeleton, Hr.
  - intros l Hl Hrep. apply (report_in_skeleton _ _ Hrep) in Hl.
    destruct (Hreport l Hl Hrep)
      as (Ho & Hv & Hnv & (c0 & A_ub & b_ub & res & Hres & Hok) & Hn & Hc).
    split; [exact Ho|]. split; [apply Hin; [reflexivity | exact Hv]|].
    split; [intro H; apply Hnv, Hin; [reflexivity | exact H]|].
    split; [exists c0, A_ub, b_ub, res; split;
            [apply Hin; [reflexivity | exact Hres] | exact Hok]|].
    split; [intro H; apply Hn, Hin; [reflexivity | exact H]|].
    apply Hin; [reflexivity | exact Hc].
Qed.
End ShortCircuit.

(** ** An unknown relation symbol: claim C3 *)

(** C3. On the row [x1 != 1] the feasibility check raises nothing and
    answers [true]; [main] prints that the candidate is feasible and the
    [ValueError] on the symbol comes from the dual transform.  When another
    row is violated, [main] ends with the infeasibility message and the
    symbol is never reported. *)
Theorem unknown_sign_passes_feasibility_check :
  verify_feasibility (Np.mk_ndarray 1 1 [[1]]%Q) [1]%Q ["!="] [5]%Q
    = Return true /\
  main failing_solver unknown_sign_args =
    (Raise (ValueError (InvalidConstraintSign "!=")),
     [ Call Reshape;
       Print (ProblemHeader true);
       Print (ConstraintLine [1]%Q "!=" 1);
       Print (ObjectiveLine true [1]%Q);
       Call VerifyFeasibility;
       Verdict true;
       Print (FeasibleLine [5]%Q);
       Call TransposeToDual ]) /\
  main failing_solver unknown_sign_infeasible_args =
    (Return tt,
     [ Call Reshape;
       Print (ProblemHeader true);
       Print (ConstraintLine [1]%Q "!=" 1);
       Print (ConstraintLine [1]%Q "<=" 0);
       Print (ObjectiveLine true [1]%Q);
       Call VerifyFeasibility;
       Verdict false;
       Print (InfeasibleLine [5]%Q) ]).
Proof. repeat split; reflexivity. Qed.

(** With more variables than constraints the rendering of the dual runs
    out of symbols: [print_problem] raises [IndexError] before the solver
    is called. *)
Example wide_problem_stops_at_dual_rendering :
  main (constant_solver [1]%Q) wide_args =
    (Raise IndexError,
     [ Call Reshape;
       Print (ProblemHeader true);
       Print (ConstraintLine [1; 1]%Q "<=" 4);
       Print (ObjectiveLine true [1; 1]%Q);
       Call VerifyFeasibility;
       Verdict true;
       Print (FeasibleLine [1; 1]%Q);
       Call TransposeToDual;
       Print (ProblemHeader false);
       Print (ConstraintLine [1]%Q ">=" 1) ]).
Proof. reflexivity. Qed.

(** ** The theorems at concrete inputs *)

Lemma transpose_to_dual_is_dual_witness :
  exists dual_signs,
    transpose_to_dual [3; 5]%Q scenario_A [4; 12; 18]%Q mixed_signs "max" =
      Return ([4; 12; 18]%Q, Np.T scenario_A, [3; 5]%Q, dual_signs) /\
    getitem dual_signs 0 = Return ">=" /\
    Np.entry (Np.T scenario_A) 1 2 = Np.entry scenario_A 2 1.
Proof.
  destruct (transpose_to_dual_is_dual [3; 5]%Q scenario_A [4; 12; 18]%Q
              mixed_signs "max" 3 2)
    as (dual_signs & Hdual & _ & _ & _ & _ & Hentry & _ & _ & Hflip).
  - split; [reflexivity | repeat constructor].
  - reflexivity.
  - reflexivity.
  - reflexivity.
  - reflexivity.
  - reflexivity.
  - unfold mixed_signs, valid_sign.
    repeat (apply Forall_cons || apply Forall_nil); auto.
  - exists dual_signs. split; [exact Hdual|]. split.
    + destruct (Hflip 0) as (sign & dual & Hsign & Hd & Hf); [lia|].
      injection Hsign as <-. injection Hf as <-. exact Hd.
    + destruct (Hentry 1 2) as (v & -> & ->); [lia | lia | reflexivity].
Defined.

Lemma verify_feasibility_reordered_witness :
  verify_feasibility (reorder_rows [2; 0; 1] scenario_A)
    (reorder 0%Q [2; 0; 1] [4; 12; 18]%Q)
    (reorder "" [2; 0; 1] mixed_signs) [5; 5]%Q =
  verify_feasibility scenario_A [4; 12; 18]%Q mixed_signs [5; 5]%Q.
Proof.
  apply verify_feasibility_reordered.
  - repeat split; try reflexivity. repeat constructor.
  - cbn. apply perm_trans with [0; 2; 1].
    + apply perm_swap.
    + apply perm_skip, perm_swap.
Defined.

Lemma main_rejects_bad_dimensions_witness :
  exists what expected,
    main failing_solver short_objective_args =
      (Raise (ValueError (MustHaveEntries what expected)), []).
Proof.
  destruct (main_rejects_bad_dimensions failing_solver short_objective_args)
    as (what & expected & _ & Hmain).
  - left. cbn. lia.
  - exists what, expected. exact Hmain.
Defined.

Lemma main_short_circuits_witness :
  In (Print (InfeasibleLine [5; 5]%Q))
    (snd (main failing_solver (scenario_args [5; 5]%Q))) /\
  ~ In (Call SolveDual) (snd (main failing_solver (scenario_args [5; 5]%Q))).
Proof.
  destruct (main_short_circuits failing_solver (scenario_args [5; 5]%Q))
    as (_ & _ & _ & _ & Hinfeasible & _).
  destruct Hinfeasible as (_ & Hmsg & _ & Hsolve & _).
  - vm_compute. auto 12.
  - split; [exact Hmsg | exact Hsolve].
Defined.

(** * Further properties of the script *)

(** ** Acceptance by [validate_inputs] *)

(** X1. [validate_inputs] returns normally exactly when the five lengths
    agree with the declared dimensions: nothing else is checked, and no
    consistent input is refused. *)
Theorem validate_inputs_accepts_iff (args : Args) :
  validate_inputs args = Return tt <->
  len (c args) = num_vars args /\
  len (A args) = (num_constraints args * num_vars args)%Z /\
  len (b args) = num_constraints args /\
  len (constraint_signs args) = num_constraints args /\
  len (possible_sol args) = num_vars args.
Proof.
  split; [apply validate_inputs_Return|].
  intros (Hc & HA & Hb & Hs & Hp). unfold validate_inputs.
  apply Z.eqb_eq in Hc, HA, Hb, Hs, Hp.
  rewrite Hc, HA, Hb, Hs, Hp. reflexivity.
Qed.

(** ** [reshape_constraints] is row-major *)

Lemma nth_map_seq {T : Type} (f : nat -> T) (d : T) (n k : nat) :
  k < n -> nth k (map f (seq 0 n)) d = f k.
Proof.
  intro Hk.
  rewrite (nth_indep _ d (f 0)) by (rewrite length_map, length_seq; exact Hk).
  rewrite map_nth, seq_nth by exact Hk. reflexivity.
Qed.

Lemma map_nth_seq {T : Type} (d : T) (l : list T) :
  map (fun k => nth k l d) (seq 0 (length l)) = l.
Proof.
  apply (nth_ext _ _ d d).
  - rewrite length_map, length_seq. reflexivity.
  - intros k Hk. rewrite length_map, length_seq in Hk.
    apply (nth_map_seq (fun j => nth j l d)), Hk.
Qed.

Lemma chunks_nth_error (n m : nat) (l : list Q) (i : nat) :
  i < m ->
  nth_error (Np.chunks n m l) i = Some (firstn n (skipn (i * n) l)).
Proof.
  revert l i. induction m as [|m IH]; intros l i Hi; [lia|].
  destruct i as [|i]; cbn [Np.chunks nth_error Nat.mul]; [reflexivity|].
  rewrite IH by lia. rewrite skipn_skipn, Nat.add_comm. reflexivity.
Qed.

Lemma chunks_concat (n m : nat) (l : list Q) :
  length l = m * n -> concat (Np.chunks n m l) = l.
Proof.
  revert l. induction m as [|m IH]; intros l Hl; cbn [Np.chunks concat].
  - destruct l; [reflexivity | discriminate Hl].
  - rewrite IH by (rewrite length_skipn; cbn [Nat.mul] in Hl; lia).
    apply firstn_skipn.
Qed.

(** X2. [reshape_constraints] succeeds exactly on [m * n] coefficients.
    The matrix it builds has [m] rows of [n] entries and is filled in row
    order: entry [[i][j]] is coefficient [i * n + j] of the flat list.
    Any other length raises [ValueError]. *)
Theorem reshape_constraints_row_major (coefficients : list Q) (m n : nat) :
  (length coefficients = m * n ->
   exists A_matrix,
     reshape_constraints coefficients m n = Return A_matrix /\
     Np.well_formed A_matrix /\
     Np.nrows A_matrix = m /\
     Np.ncols A_matrix = n /\
     forall i j, i < m -> j < n ->
       exists v, Np.entry A_matrix i j = Return v /\
                 getitem coefficients (i * n + j) = Return v) /\
  (length coefficients <> m * n ->
   reshape_constraints coefficients m n =
     Raise (ValueError (CannotReshape (length coefficients) m n))).
Proof.
  unfold reshape_constraints, Np.reshape. split; intro Hlen.
  - rewrite Hlen, Nat.eqb_refl. eexists. split; [reflexivity|].
    split; [exact (chunks_well_formed _ _ _ Hlen)|].
    split; [reflexivity|]. split; [reflexivity|].
    intros i j Hi Hj.
    assert (Hflat : i * n + j < length coefficients) by nia.
    exists (nth (i * n + j) coefficients 0%Q).
    split; [|apply getitem_nth, Hflat].
    unfold Np.entry, Np.row, getitem at 1. cbn [Np.rows].
    rewrite chunks_nth_error by exact Hi. cbn [obind].
    unfold getitem. rewrite nth_error_firstn, nth_error_skipn.
    replace (j <? n)%nat with true by (symmetry; apply Nat.ltb_lt, Hj).
    rewrite (nth_error_nth' _ 0%Q Hflat). reflexivity.
  - apply Nat.eqb_neq in Hlen. rewrite Hlen. reflexivity.
Qed.

(** X3. Flattening the matrix [reshape_constraints] builds gives the
    coefficients back, in order. *)
Theorem reshape_constraints_flatten (coefficients : list Q) (m n : nat)
    (A_matrix : Np.ndarray) :
  reshape_constraints coefficients m n = Return A_matrix ->
  concat (Np.rows A_matrix) = coefficients.
Proof.
  unfold reshape_constraints, Np.reshape.
  destruct (Nat.eqb_spec (length coefficients) (m * n)) as [Hlen|];
    [|discriminate].
  intro H. injection H as <-. cbn [Np.rows]. apply chunks_concat, Hlen.
Qed.

(** ** The dual of the dual *)

Lemma T_involutive_rows (A : Np.ndarray) :
  Np.well_formed A -> Np.T (Np.T A) = A.
Proof.
  destruct A as [m n rows]. intros [Hlen Hrows].
  cbn [Np.rows Np.nrows Np.ncols] in Hlen, Hrows.
  unfold Np.T. cbn [Np.rows Np.nrows Np.ncols]. f_equal.
  apply (nth_ext _ _ [] []).
  - rewrite length_map, length_seq. symmetry. exact Hlen.
  - intros i Hi. rewrite length_map, length_seq in Hi.
    rewrite nth_map_seq by exact Hi. rewrite map_map.
    assert (Hrow : length (nth i rows []) = n).
    { rewrite Forall_forall in Hrows. apply Hrows, nth_In. lia. }
    rewrite <- (map_nth_seq 0%Q (nth i rows [])) at 1. rewrite Hrow.
    apply map_ext. intro j.
    rewrite (nth_indep _ 0%Q ((fun r : list Q => nth j r 0%Q) []))
      by (rewrite length_map; lia).
    apply (map_nth (fun r : list Q => nth j r 0%Q)).
Qed.

(** X4. Transposing twice gives the matrix back, shape and entries, also
    for a matrix without rows or without columns. *)
Theorem T_involutive (A : Np.ndarray) :
  Np.well_formed A ->
  Np.T (Np.T A) = A /\ Np.well_formed (Np.T A).
Proof.
  intro Hwf. split; [apply T_involutive_rows, Hwf | apply T_well_formed, Hwf].
Qed.

Lemma dual_signs_loop_unflips (constraint_signs flipped : list string) :
  Forall2 (fun sign dual => flip sign = Some dual) constraint_signs flipped ->
  forall dual_signs,
    dual_signs_loop dual_signs flipped =
    Return (dual_signs ++ constraint_signs)%list.
Proof.
  induction 1 as [|sign dual signs flipped Hflip _ IH]; intro dual_signs.
  - rewrite app_nil_r. reflexivity.
  - assert (Hstep : dual_signs_loop dual_signs (dual :: flipped) =
                    dual_signs_loop (dual_signs ++ [sign]) flipped).
    { unfold flip in Hflip.
      destruct (String.eqb_spec sign "<=") as [-> | _];
        [injection Hflip as <-; reflexivity|].
      destruct (String.eqb_spec sign ">=") as [-> | _];
        [injection Hflip as <-; reflexivity|].
      destruct (String.eqb_spec sign "=") as [-> | _];
        [injection Hflip as <-; reflexivity | discriminate Hflip]. }
    rewrite Hstep, IH, <- app_assoc. reflexivity.
Qed.

(** X5. The dual of the dual is the primal: on a program with symbols
    among [<=], [=], [>=], applying [transpose_to_dual] to its own result
    returns the original objective, matrix, right-hand side and symbols. *)
Theorem transpose_to_dual_twice (c : list Q) (A : Np.ndarray) (b : list Q)
    (constraint_signs : list string) (problem_type problem_type' : string) :
  Np.well_formed A ->
  Forall valid_sign constraint_signs ->
  exists dual_signs,
    transpose_to_dual c A b constraint_signs problem_type =
      Return (b, Np.T A, c, dual_signs) /\
    transpose_to_dual b (Np.T A) c dual_signs problem_type' =
      Return (c, A, b, constraint_signs).
Proof.
  intros Hwf Hvalid.
  destruct (dual_signs_loop_flips constraint_signs [] Hvalid)
    as (dual_signs & Hloop & Hflips).
  exists dual_signs. unfold transpose_to_dual.
  rewrite Hloop, (dual_signs_loop_unflips _ _ Hflips []). cbn [obind app].
  rewrite (T_involutive_rows A Hwf). split; reflexivity.
Qed.

(** ** An unknown symbol in [transpose_to_dual] *)

Lemma dual_signs_loop_raises (valid : list string) (sign : string)
    (rest dual_signs : list string) :
  Forall valid_sign valid ->
  ~ valid_sign sign ->
  dual_signs_loop dual_signs (valid ++ sign :: rest) =
  Raise (ValueError (InvalidConstraintSign sign)).
Proof.
  intros Hvalid Hsign. revert dual_signs.
  induction Hvalid as [|s valid Hs _ IH]; intro dual_signs.
  - cbn [app dual_signs_loop]. unfold valid_sign in Hsign.
    destruct (String.eqb_spec sign "<="); [tauto|].
    destruct (String.eqb_spec sign ">="); [tauto|].
    destruct (String.eqb_spec sign "="); [tauto|].
    reflexivity.
  - cbn [app]. destruct Hs as [-> | [-> | ->]]; cbn; apply IH.
Qed.

Lemma first_unknown_sign (constraint_signs : list string) :
  Forall valid_sign constraint_signs \/
  exists valid sign rest,
    constraint_signs = (valid ++ sign :: rest)%list /\
    Forall valid_sign valid /\ ~ valid_sign sign.
Proof.
  induction constraint_signs as [|s signs IH]; [left; constructor|].
  destruct (valid_sign_dec s) as [Hs | Hs].
  - destruct IH as [Hall | (valid & sign & rest & -> & Hvalid & Hsign)].
    + left. constructor; assumption.
    + right. exists (s :: valid), sign, rest.
      split; [reflexivity|]. split; [constructor; assumption | exact Hsign].
  - right. exists [], s, signs. split; [reflexivity|].
    split; [constructor | exact Hs].
Qed.

(** X6. [transpose_to_dual] returns exactly when every symbol is [<=],
    [=] or [>=]; otherwise it raises the [ValueError] that names the first
    symbol outside the three, whatever follows it. *)
Theorem transpose_to_dual_raises_on_first_unknown_sign (c : list Q)
    (A : Np.ndarray) (b : list Q) (constraint_signs : list string)
    (problem_type : string) :
  ((exists dual,
      transpose_to_dual c A b constraint_signs problem_type = Return dual) <->
   Forall valid_sign constraint_signs) /\
  (forall valid sign rest,
     constraint_signs = (valid ++ sign :: rest)%list ->
     Forall valid_sign valid ->
     ~ valid_sign sign ->
     transpose_to_dual c A b constraint_signs problem_type =
       Raise (ValueError (InvalidConstraintSign sign))).
Proof.
  assert (Hraise : forall valid sign rest,
             constraint_signs = (valid ++ sign :: rest)%list ->
             Forall valid_sign valid ->
             ~ valid_sign sign ->
             transpose_to_dual c A b constraint_signs problem_type =
               Raise (ValueError (InvalidConstraintSign sign))).
  { intros valid sign rest -> Hvalid Hsign. unfold transpose_to_dual.
    rewrite (dual_signs_loop_raises _ _ _ _ Hvalid Hsign). reflexivity. }
  split; [|exact Hraise]. split.
  - intros (dual & Hdual).
    destruct (first_unknown_sign constraint_signs)
      as [Hall | (valid & sign & rest & Heq & Hvalid & Hsign)];
      [exact Hall|].
    rewrite (Hraise _ _ _ Heq Hvalid Hsign) in Hdual. discriminate Hdual.
  - intro Hall.
    destruct (dual_signs_loop_flips constraint_signs [] Hall)
      as (dual_signs & Hloop & _).
    unfold transpose_to_dual. rewrite Hloop. eexists. reflexivity.
Qed.

(** ** What [print_problem] prints *)

Lemma io_eta {T : Type} (m : io T) : m = (fst m, snd m).
Proof. destruct m. reflexivity. Qed.

(** The loop of [print_problem] from index [length done] on: it stops
    with [IndexError] at the first index without a row or a symbol. *)
Lemma print_constraints_closed_form (A : Np.ndarray)
    (constraint_signs : list string) (rest done : list Q) :
  length done <= printable A constraint_signs ->
  print_constraints A constraint_signs (length done) rest =
  (if (length done + length rest <=? printable A constraint_signs)%nat
   then Return tt else Raise IndexError,
   map (rendered_line A constraint_signs (done ++ rest))
     (seq (length done)
        (Nat.min (length rest)
           (printable A constraint_signs - length done)))).
Proof.
  revert done. induction rest as [|bi rest IH]; intros done Hdone.
  - cbn [print_constraints length Nat.min seq map]. unfold ret.
    rewrite Nat.add_0_r.
    replace (length done <=? printable A constraint_signs)%nat with true
      by (symmetry; apply Nat.leb_le, Hdone).
    reflexivity.
  - cbn [print_constraints length]. unfold Np.row, printable in *.
    destruct (Nat.eq_dec (length done)
                (Nat.min (length (Np.rows A)) (length constraint_signs)))
      as [Hlast | Hmore].
    + (* no row or no symbol is left *)
      replace (length done + S (length rest) <=?
               Nat.min (length (Np.rows A)) (length constraint_signs))%nat
        with false by (symmetry; apply Nat.leb_gt; lia).
      rewrite <- Hlast, Nat.sub_diag, Nat.min_0_r. cbn [seq map].
      unfold getitem.
      destruct (nth_error (Np.rows A) (length done)) as [r|] eqn:Hr;
        [|reflexivity].
      destruct (nth_error constraint_signs (length done)) as [s|] eqn:Hs;
        [|reflexivity].
      exfalso.
      assert (length done < length (Np.rows A))
        by (apply nth_error_Some; congruence).
      assert (length done < length constraint_signs)
        by (apply nth_error_Some; congruence).
      lia.
    + assert (Hrow : length done < length (Np.rows A)) by lia.
      assert (Hsign : length done < length constraint_signs) by lia.
      rewrite (getitem_nth _ _ [] Hrow), (getitem_nth _ _ "" Hsign).
      specialize (IH (done ++ [bi])%list).
      rewrite length_app, <- app_assoc in IH. cbn [length app] in IH.
      rewrite Nat.add_1_r in IH.
      rewrite (io_eta (bind _ _)).
      repeat (rewrite bind_fst, bind_snd; cbn [lift emit fst snd app]).
      rewrite IH by lia. cbn [fst snd].
      replace (length done + S (length rest)) with (S (length done + length rest))
        by lia.
      cbn [Nat.add].
      replace (Nat.min (S (length rest))
                 (Nat.min (length (Np.rows A)) (length constraint_signs)
                  - length done))
        with (S (Nat.min (length rest)
                   (Nat.min (length (Np.rows A)) (length constraint_signs)
                    - S (length done)))) by lia.
      cbn [seq map]. unfold rendered_line at 2. rewrite nth_middle.
      reflexivity.
Qed.

Lemma print_problem_closed_form (c : list Q) (A : Np.ndarray) (b : list Q)
    (constraint_signs : list string) (is_primal : bool) :
  print_problem c A b constraint_signs is_primal =
  (if (length b <=? printable A constraint_signs)%nat
   then Return tt else Raise IndexError,
   Print (ProblemHeader is_primal) ::
   map (rendered_line A constraint_signs b)
     (seq 0 (Nat.min (length b) (printable A constraint_signs))) ++
   (if (length b <=? printable A constraint_signs)%nat
    then [Print (ObjectiveLine is_primal c)] else []))%list.
Proof.
  unfold print_problem.
  pose proof (print_constraints_closed_form A constraint_signs b []
                (Nat.le_0_l _)) as Hloop.
  cbn [length app Nat.add] in Hloop. rewrite Nat.sub_0_r in Hloop.
  rewrite (io_eta (bind _ _)).
  rewrite bind_fst, bind_snd. cbn [emit fst snd app].
  rewrite bind_fst, bind_snd, Hloop. cbn [fst snd].
  destruct (length b <=? printable A constraint_signs)%nat;
    [reflexivity | rewrite !app_nil_r; reflexivity].
Qed.

(** X7. [print_problem] prints the header, then one line per right-hand
    side as long as the matrix has a row and the symbol list has a symbol
    at that index, then the objective.  When the right-hand sides outnumber
    the rows or the symbols it raises [IndexError] after the last line it
    could print, and the objective is not printed. *)
Theorem print_problem_prints (c : list Q) (A : Np.ndarray) (b : list Q)
    (constraint_signs : list string) (is_primal : bool) :
  (length b <= printable A constraint_signs ->
   print_problem c A b constraint_signs is_primal =
   (Return tt,
    Print (ProblemHeader is_primal) ::
    map (rendered_line A constraint_signs b) (seq 0 (length b)) ++
    [Print (ObjectiveLine is_primal c)])%list) /\
  (printable A constraint_signs < length b ->
   print_problem c A b constraint_signs is_primal =
   (Raise IndexError,
    Print (ProblemHeader is_primal) ::
    map (rendered_line A constraint_signs b)
      (seq 0 (printable A constraint_signs)))).
Proof.
  rewrite print_problem_closed_form. split; intro H.
  - replace (length b <=? printable A constraint_signs)%nat with true
      by (symmetry; apply Nat.leb_le, H).
    rewrite Nat.min_l by exact H. reflexivity.
  - replace (length b <=? printable A constraint_signs)%nat with false
      by (symmetry; apply Nat.leb_gt, H).
    rewrite Nat.min_r by lia. rewrite app_nil_r. reflexivity.
Qed.

(** ** Complete runs of [main] *)

Lemma shaped_dimensions (args : Args) (A_matrix : Np.ndarray) :
  shaped args A_matrix ->
  matching_dimensions A_matrix (b args) (constraint_signs args)
    (possible_sol args) /\
  length (c args) = length (possible_sol args) /\
  length (Np.rows A_matrix) = length (b args).
Proof.
  intros [Hvalid Hshape].
  destruct (validated_shaped args Hvalid) as (A' & [_ Hshape'] & Hdim).
  rewrite Hshape in Hshape'. injection Hshape' as <-.
  destruct (validate_inputs_Return args Hvalid) as (Hc & _ & _ & _ & Hsol).
  split; [exact Hdim|]. unfold len in *.
  destruct Hdim as ((Hlen & _) & Hrows & _). split; lia.
Qed.

Lemma primal_rendering_returns (args : Args) (A_matrix : Np.ndarray) :
  shaped args A_matrix ->
  fst (print_problem (c args) A_matrix (b args) (constraint_signs args) true)
  = Return tt.
Proof.
  intro Hshaped.
  destruct (shaped_dimensions args A_matrix Hshaped)
    as ((_ & _ & Hsigns & _) & _ & Hrows).
  apply print_problem_returns; lia.
Qed.

(** The rendering of the dual: [N] lines are asked for, with [M] symbols. *)
Lemma dual_rendering_outcome (args : Args) (A_matrix : Np.ndarray)
    (dual_signs : list string) :
  shaped args A_matrix ->
  length dual_signs = length (constraint_signs args) ->
  fst (print_problem (b args) (Np.T A_matrix) (c args) dual_signs false) =
  if (length (c args) <=? length (b args))%nat
  then Return tt else Raise IndexError.
Proof.
  intros Hshaped Hdual.
  destruct (shaped_dimensions args A_matrix Hshaped)
    as ((_ & _ & Hsigns & Hcols) & Hc & _).
  rewrite print_problem_closed_form. cbn [fst].
  unfold printable, Np.T. cbn [Np.rows].
  rewrite length_map, length_seq, Hdual, Hsigns, Hcols, <- Hc.
  destruct (Nat.leb_spec (length (c args)) (length (b args))) as [Hle | Hgt].
  - replace (length (c args) <=?
             Nat.min (length (c args)) (length (b args)))%nat with true
      by (symmetry; apply Nat.leb_le; lia).
    reflexivity.
  - replace (length (c args) <=?
             Nat.min (length (c args)) (length (b args)))%nat with false
      by (symmetry; apply Nat.leb_gt; lia).
    reflexivity.
Qed.

(** [main] up to the call of the dual transform, on a feasible candidate. *)
Ltac run_to_dual_transform Hshaped Hcheck :=
  let Hvalid := fresh "Hvalid" in
  let Hshape := fresh "Hshape" in
  pose proof Hshaped as [Hvalid Hshape];
  unfold main; run_statement; rewrite Hvalid;
  do 2 run_statement; rewrite Hshape;
  run_print_problem; rewrite (primal_rendering_returns _ _ Hshaped);
  do 2 run_statement; rewrite Hcheck;
  do 4 run_statement.

Section CompleteRuns.

Variable linprog : list Q -> Np.ndarray -> list Q -> OptimizeResult.

(** X8. A problem with more variables than constraints never reaches the
    solver: on validated inputs with symbols among [<=], [=], [>=] and a
    feasible candidate, [main] prints the feasibility message, builds the
    dual and then raises [IndexError] while rendering it, because the dual
    has one line per variable but only one symbol per constraint. *)
Theorem main_raises_on_more_variables_than_constraints (args : Args)
    (A_matrix : Np.ndarray) :
  shaped args A_matrix ->
  verify_feasibility A_matrix (b args) (constraint_signs args)
    (possible_sol args) = Return true ->
  Forall valid_sign (constraint_signs args) ->
  length (b args) < length (c args) ->
  fst (main linprog args) = Raise IndexError /\
  skeleton (snd (main linprog args)) = feasible_log args.
Proof.
  intros Hshaped Hcheck Hsigns Hwide.
  destruct (dual_signs_loop_flips _ [] Hsigns) as (dual_signs & Hloop & Hflips).
  pose proof (dual_rendering_outcome args A_matrix dual_signs Hshaped
                (eq_sym (Forall2_length Hflips))) as Hprint.
  replace (length (c args) <=? length (b args))%nat with false in Hprint
    by (symmetry; apply Nat.leb_gt, Hwide).
  run_to_dual_transform Hshaped Hcheck.
  unfold transpose_to_dual. rewrite Hloop. cbn [obind app fst snd].
  run_print_problem. rewrite Hprint.
  split; reflexivity.
Qed.

(** X9. The success path, end to end: on validated inputs with symbols
    among [<=], [=], [>=], a feasible candidate, no more variables than
    constraints and a solver that succeeds with one value per constraint,
    [main] returns normally; it calls each stage once, hands the solver
    the right-hand side as objective with the negated transpose and the
    negated objective as bounds, and ends with the optimal line when
    [dot(c, candidate)] is close to [dot(b, solution)] and with the
    not-optimal line otherwise. *)
Theorem main_reports_optimality (args : Args) (A_matrix : Np.ndarray) :
  let res := linprog (b args) (Np.neg2 (Np.T A_matrix)) (Np.neg (c args)) in
  let p := Np.inner (c args) (possible_sol args) in
  let d := Np.inner (b args) (x res) in
  shaped args A_matrix ->
  verify_feasibility A_matrix (b args) (constraint_signs args)
    (possible_sol args) = Return true ->
  Forall valid_sign (constraint_signs args) ->
  length (c args) <= length (b args) ->
  success res = true ->
  length (x res) = length (b args) ->
  fst (main linprog args) = Return tt /\
  skeleton (snd (main linprog args)) =
    (solved_log args A_matrix res ++
     [Print (DualSolutionLine (x res)); Call CheckOptimality;
      Print (if Np.isclose p d then OptimalLine p
             else NotOptimalLine p d)])%list.
Proof.
  intros res p d Hshaped Hcheck Hsigns Hnarrow Hres Hlen.
  destruct (dual_signs_loop_flips _ [] Hsigns) as (dual_signs & Hloop & Hflips).
  pose proof (dual_rendering_outcome args A_matrix dual_signs Hshaped
                (eq_sym (Forall2_length Hflips))) as Hprint.
  replace (length (c args) <=? length (b args))%nat with true in Hprint
    by (symmetry; apply Nat.leb_le, Hnarrow).
  destruct (shaped_dimensions args A_matrix Hshaped) as (_ & Hc & _).
  run_to_dual_transform Hshaped Hcheck.
  unfold transpose_to_dual. rewrite Hloop. cbn [obind app fst snd].
  run_print_problem. rewrite Hprint.
  do 2 run_statement. rewrite solve_dual_run. cbn [fst snd].
  fold res. rewrite Hres. cbn [skeleton filter app is_layout negb].
  do 3 run_statement.
  unfold check_optimality.
  rewrite (dot_inner _ _ Hc), (dot_inner _ _ (eq_sym Hlen)). cbn [obind].
  fold p d. unfold solved_log, feasible_log. cbn [app].
  destruct (Np.isclose p d); cbn [emit fst snd skeleton filter is_layout negb];
    split; reflexivity.
Qed.

(** X10. When the solver fails, on validated inputs with symbols among
    [<=], [=], [>=], a feasible candidate and no more variables than
    constraints, [main] returns normally after the message that the dual
    could not be solved; nothing is compared. *)
Theorem main_reports_solver_failure (args : Args) (A_matrix : Np.ndarray) :
  let res := linprog (b args) (Np.neg2 (Np.T A_matrix)) (Np.neg (c args)) in
  shaped args A_matrix ->
  verify_feasibility A_matrix (b args) (constraint_signs args)
    (possible_sol args) = Return true ->
  Forall valid_sign (constraint_signs args) ->
  length (c args) <= length (b args) ->
  success res = false ->
  fst (main linprog args) = Return tt /\
  skeleton (snd (main linprog args)) =
    (solved_log args A_matrix res ++ [Print DualNotSolvedLine])%list.
Proof.
  intros res Hshaped Hcheck Hsigns Hnarrow Hres.
  destruct (dual_signs_loop_flips _ [] Hsigns) as (dual_signs & Hloop & Hflips).
  pose proof (dual_rendering_outcome args A_matrix dual_signs Hshaped
                (eq_sym (Forall2_length Hflips))) as Hprint.
  replace (length (c args) <=? length (b args))%nat with true in Hprint
    by (symmetry; apply Nat.leb_le, Hnarrow).
  run_to_dual_transform Hshaped Hcheck.
  unfold transpose_to_dual. rewrite Hloop. cbn [obind app fst snd].
  run_print_problem. rewrite Hprint.
  do 2 run_statement. rewrite solve_dual_run. cbn [fst snd].
  fold res. rewrite Hres.
  cbn [skeleton filter app is_layout negb ret fst snd].
  split; reflexivity.
Qed.

(** X11. An unknown symbol surfaces only after a feasible verdict: on
    validated inputs whose first symbol outside [<=], [=], [>=] is [sign],
    if the feasibility check returns [true] then [main] prints the
    feasibility message and raises the [ValueError] naming [sign] from the
    dual transform; the dual is neither rendered nor solved. *)
Theorem main_raises_on_unknown_sign_after_feasibility (args : Args)
    (A_matrix : Np.ndarray) (valid : list string) (sign : string)
    (rest : list string) :
  shaped args A_matrix ->
  verify_feasibility A_matrix (b args) (constraint_signs args)
    (possible_sol args) = Return true ->
  constraint_signs args = (valid ++ sign :: rest)%list ->
  Forall valid_sign valid ->
  ~ valid_sign sign ->
  fst (main linprog args) = Raise (ValueError (InvalidConstraintSign sign)) /\
  skeleton (snd (main linprog args)) = feasible_log args.
Proof.
  intros Hshaped Hcheck Hsigns Hvalid Hsign.
  run_to_dual_transform Hshaped Hcheck.
  unfold transpose_to_dual.
  rewrite Hsigns, (dual_signs_loop_raises _ _ _ _ Hvalid Hsign).
  cbn [obind fst snd]. split; reflexivity.
Qed.

End CompleteRuns.

Lemma neg2_well_formed (A : Np.ndarray) :
  Np.well_formed A -> Np.well_formed (Np.neg2 A).
Proof.
  intros [Hlen Hrows]. unfold Np.well_formed, Np.neg2.
  cbn [Np.rows Np.nrows Np.ncols]. split.
  - rewrite length_map. exact Hlen.
  - apply Forall_forall. intros r Hr. apply in_map_iff in Hr.
    destruct Hr as (r' & <- & Hr'). unfold Np.neg. rewrite length_map.
    rewrite Forall_forall in Hrows. apply Hrows, Hr'.
Qed.

Section SolverArguments.

Variable linprog : list Q -> Np.ndarray -> list Q -> OptimizeResult.

(** X12. Whatever [main] hands to the solver is the dual of the validated
    input, posed with upper bounds: the objective is the primal right-hand
    side, the bound matrix is the negated transpose of the reshaped
    coefficients and the bound vector is the negated primal objective.
    The three agree in dimension: one bound row per primal variable, one
    column per primal constraint. *)
Theorem main_solver_arguments (args : Args) (objective : list Q)
    (A_ub : Np.ndarray) (b_ub : list Q) (res : OptimizeResult) :
  In (Linprog objective A_ub b_ub res) (snd (main linprog args)) ->
  exists A_matrix,
    shaped args A_matrix /\
    objective = b args /\
    A_ub = Np.neg2 (Np.T A_matrix) /\
    b_ub = Np.neg (c args) /\
    res = linprog objective A_ub b_ub /\
    Np.well_formed A_ub /\
    Np.nrows A_ub = length b_ub /\
    Np.ncols A_ub = length objective.
Proof.
  intro Hin. apply In_skeleton in Hin; [|reflexivity].
  assert (Hdims : forall A_matrix,
             shaped args A_matrix ->
             Np.well_formed (Np.neg2 (Np.T A_matrix)) /\
             Np.nrows (Np.neg2 (Np.T A_matrix)) = length (Np.neg (c args)) /\
             Np.ncols (Np.neg2 (Np.T A_matrix)) = length (b args)).
  { intros A_matrix Hshaped.
    destruct (shaped_dimensions args A_matrix Hshaped)
      as ((Hwf & Hrows & _ & Hcols) & Hc & _).
    split; [apply neg2_well_formed, T_well_formed, Hwf|].
    unfold Np.neg2, Np.T, Np.neg. cbn [Np.nrows Np.ncols].
    rewrite length_map. split; lia. }
  destruct (main_pipeline_run linprog args);
    unfold solved_log, feasible_log in Hin; cbn [app In] in Hin;
    event_cases; try discriminate.
  all: exists A_matrix; destruct (Hdims A_matrix) as (Hwf & Hrows & Hcols);
    [assumption|]; repeat (split; [assumption || reflexivity|]);
    assumption.
Qed.

End SolverArguments.

(** ** Errors of the feasibility check on inconsistent dimensions *)

(** X13. With at least one symbol and one row, a candidate whose length
    is not the number of columns makes the feasibility check raise the
    [ValueError] of [np.dot] on the first row. *)
Theorem verify_feasibility_raises_on_candidate_length (A : Np.ndarray)
    (b : list Q) (sign : string) (rest : list string)
    (possible_sol : list Q) :
  Np.well_formed A ->
  0 < Np.nrows A ->
  Np.ncols A <> length possible_sol ->
  verify_feasibility A b (sign :: rest) possible_sol =
  Raise (ValueError (ShapesNotAligned (Np.ncols A) (length possible_sol))).
Proof.
  intros Hwf Hrows Hcols. pose proof Hwf as [Hlen _].
  assert (Hrow : 0 < length (Np.rows A)) by lia.
  unfold verify_feasibility. cbn [verify_rows]. unfold Np.row.
  rewrite (getitem_nth _ _ [] Hrow). cbn [obind]. unfold Np.dot.
  rewrite (well_formed_row_length _ _ Hwf Hrow).
  apply Nat.eqb_neq in Hcols. rewrite Hcols. reflexivity.
Qed.

Lemma verify_rows_closed_form (A : Np.ndarray) (b possible_sol : list Q)
    (rest done : list string) :
  Np.well_formed A ->
  Np.ncols A = length possible_sol ->
  length (Np.rows A) = length b ->
  length done <= length b ->
  verify_rows A b possible_sol (length done) rest =
  if forallb (row_verdict_at A b (done ++ rest) possible_sol)
       (seq (length done) (Nat.min (length rest) (length b - length done)))
  then (if (length done + length rest <=? length b)%nat
        then Return true else Raise IndexError)
  else Return false.
Proof.
  intros Hwf Hcols Hrows. revert done.
  induction rest as [|sign rest IH]; intros done Hdone.
  - cbn [verify_rows length Nat.min seq forallb]. rewrite Nat.add_0_r.
    replace (length done <=? length b)%nat with true
      by (symmetry; apply Nat.leb_le, Hdone).
    reflexivity.
  - destruct (Nat.eq_dec (length done) (length b)) as [Hlast | Hmore].
    + cbn [verify_rows length]. unfold Np.row, getitem.
      replace (nth_error (Np.rows A) (length done)) with (@None (list Q))
        by (symmetry; apply nth_error_None; lia).
      rewrite Hlast, Nat.sub_diag, Nat.min_0_r. cbn [seq forallb obind].
      replace (length b + S (length rest) <=? length b)%nat with false
        by (symmetry; apply Nat.leb_gt; lia).
      reflexivity.
    + rewrite verify_rows_step by (assumption || lia).
      cbn [length].
      replace (Nat.min (S (length rest)) (length b - length done))
        with (S (Nat.min (length rest) (length b - S (length done))))
        by lia.
      cbn [seq forallb]. unfold row_verdict_at at 1. rewrite nth_middle.
      destruct (row_verdict sign _ _); cbn [andb]; [|reflexivity].
      specialize (IH (done ++ [sign])%list).
      rewrite length_app, <- app_assoc in IH. cbn [length app] in IH.
      rewrite Nat.add_1_r in IH. rewrite IH by lia.
      replace (S (length done) + length rest)
        with (length done + S (length rest)) by lia.
      reflexivity.
Qed.

(** X14. With more symbols than rows the feasibility check cannot
    return [true]: it returns [false] when one of the rows is violated
    and raises [IndexError] at the first symbol without a row
    otherwise. *)
Theorem verify_feasibility_with_surplus_signs (A : Np.ndarray) (b : list Q)
    (constraint_signs : list string) (possible_sol : list Q) :
  Np.well_formed A ->
  Np.ncols A = length possible_sol ->
  Np.nrows A = length b ->
  length b < length constraint_signs ->
  verify_feasibility A b constraint_signs possible_sol =
  if forallb (row_verdict_at A b constraint_signs possible_sol)
       (seq 0 (length b))
  then Raise IndexError else Return false.
Proof.
  intros Hwf Hcols Hrows Hsurplus. pose proof Hwf as [Hlen _].
  unfold verify_feasibility.
  pose proof (verify_rows_closed_form A b possible_sol constraint_signs []
                Hwf Hcols) as Hloop.
  cbn [length app Nat.add] in Hloop. rewrite Hloop by lia.
  rewrite Nat.sub_0_r, Nat.min_r by lia.
  replace (length constraint_signs <=? length b)%nat with false
    by (symmetry; apply Nat.leb_gt, Hsurplus).
  reflexivity.
Qed.

(** ** Equal objective values *)



(** ** The output of an infeasible run *)

Section InfeasibleRun.

Variable linprog : list Q -> Np.ndarray -> list Q -> OptimizeResult.

(** X16. The whole output of a run that stops at the feasibility gate: on
    validated inputs whose candidate fails the check, [main] returns
    normally having printed the primal problem in full (header, one line
    per constraint in input order, objective) and then the infeasibility
    message, and nothing else. *)
Theorem main_infeasible_output (args : Args) (A_matrix : Np.ndarray) :
  shaped args A_matrix ->
  verify_feasibility A_matrix (b args) (constraint_signs args)
    (possible_sol args) = Return false ->
  main linprog args =
  (Return tt,
   Call Reshape ::
   Print (ProblemHeader true) ::
   map (rendered_line A_matrix (constraint_signs args) (b args))
     (seq 0 (length (b args))) ++
   [Print (ObjectiveLine true (c args));
    Call VerifyFeasibility;
    Verdict false;
    Print (InfeasibleLine (possible_sol args))])%list.
Proof.
  intros Hshaped Hcheck. pose proof Hshaped as [Hvalid Hshape].
  destruct (shaped_dimensions args A_matrix Hshaped)
    as ((_ & _ & Hsigns & _) & _ & Hrows).
  assert (Hprint : print_problem (c args) A_matrix (b args)
                     (constraint_signs args) true =
                   (Return tt,
                    Print (ProblemHeader true) ::
                    map (rendered_line A_matrix (constraint_signs args)
                           (b args)) (seq 0 (length (b args))) ++
                    [Print (ObjectiveLine true (c args))])%list).
  { rewrite print_problem_closed_form. unfold printable.
    rewrite Hrows, Hsigns, !Nat.min_id, Nat.leb_refl. reflexivity. }
  unfold main. rewrite (io_eta (bind _ _)).
  rewrite bind_fst, bind_snd, Hvalid. cbn [lift fst snd app].
  do 2 (rewrite bind_fst, bind_snd; cbn [lift emit fst snd app]).
  rewrite Hshape.
  rewrite bind_fst, bind_snd, Hprint. cbn [fst snd].
  do 2 (rewrite bind_fst, bind_snd; cbn [lift emit fst snd app]).
  rewrite Hcheck.
  rewrite bind_fst, bind_snd. cbn [emit fst snd app].
  rewrite <- app_assoc. reflexivity.
Qed.

End InfeasibleRun.

(** ** The further properties at concrete inputs *)

Lemma reshape_constraints_flatten_witness :
  concat (Np.rows scenario_A) = [1; 0; 0; 2; 3; 2]%Q.
Proof.
  apply (reshape_constraints_flatten [1; 0; 0; 2; 3; 2]%Q 3 2 scenario_A).
  reflexivity.
Defined.

Lemma T_involutive_witness :
  Np.T (Np.T scenario_A) = scenario_A /\ Np.well_formed (Np.T scenario_A).
Proof.
  apply (T_involutive scenario_A).
  split; [reflexivity | repeat constructor].
Defined.

Lemma transpose_to_dual_twice_witness :
  exists dual_signs,
    transpose_to_dual [3; 5]%Q scenario_A [4; 12; 18]%Q mixed_signs "max" =
      Return ([4; 12; 18]%Q, Np.T scenario_A, [3; 5]%Q, dual_signs) /\
    transpose_to_dual [4; 12; 18]%Q (Np.T scenario_A) [3; 5]%Q dual_signs
      "min" =
      Return ([3; 5]%Q, scenario_A, [4; 12; 18]%Q, mixed_signs).
Proof.
  apply (transpose_to_dual_twice [3; 5]%Q scenario_A [4; 12; 18]%Q
           mixed_signs "max" "min").
  - split; [reflexivity | repeat constructor].
  - unfold mixed_signs, valid_sign.
    repeat (apply Forall_cons || apply Forall_nil); auto.
Defined.

Lemma main_raises_on_more_variables_than_constraints_witness :
  fst (main (constant_solver [1]%Q) wide_args) = Raise IndexError /\
  skeleton (snd (main (constant_solver [1]%Q) wide_args)) =
    feasible_log wide_args.
Proof.
  apply (main_raises_on_more_variables_than_constraints
           (constant_solver [1]%Q) wide_args wide_A).
  - split; reflexivity.
  - reflexivity.
  - unfold valid_sign. cbn.
    repeat (apply Forall_cons || apply Forall_nil); auto.
  - cbn. lia.
Defined.

Lemma main_reports_optimality_witness :
  fst (main (constant_solver [0; 3 # 2; 1]%Q) (scenario_args [2; 6]%Q)) =
  Return tt.
Proof.
  destruct (main_reports_optimality (constant_solver [0; 3 # 2; 1]%Q)
              (scenario_args [2; 6]%Q) scenario_A) as [Hreturn _].
  - split; reflexivity.
  - reflexivity.
  - unfold valid_sign. cbn.
    repeat (apply Forall_cons || apply Forall_nil); auto.
  - cbn. lia.
  - reflexivity.
  - reflexivity.
  - exact Hreturn.
Defined.

Lemma main_reports_solver_failure_witness :
  fst (main failing_solver (scenario_args [2; 6]%Q)) = Return tt.
Proof.
  destruct (main_reports_solver_failure failing_solver
              (scenario_args [2; 6]%Q) scenario_A) as [Hreturn _].
  - split; reflexivity.
  - reflexivity.
  - unfold valid_sign. cbn.
    repeat (apply Forall_cons || apply Forall_nil); auto.
  - cbn. lia.
  - reflexivity.
  - exact Hreturn.
Defined.

Lemma main_raises_on_unknown_sign_after_feasibility_witness :
  fst (main failing_solver unknown_sign_args) =
    Raise (ValueError (InvalidConstraintSign "!=")) /\
  skeleton (snd (main failing_solver unknown_sign_args)) =
    feasible_log unknown_sign_args.
Proof.
  apply (main_raises_on_unknown_sign_after_feasibility failing_solver
           unknown_sign_args unknown_sign_A [] "!=" []).
  - split; reflexivity.
  - reflexivity.
  - reflexivity.
  - constructor.
  - intros [H | [H | H]]; discriminate H.
Defined.

Lemma main_solver_arguments_witness :
  exists A_matrix,
    shaped (scenario_args [2; 6]%Q) A_matrix /\
    Np.neg2 (Np.T scenario_A) = Np.neg2 (Np.T A_matrix).
Proof.
  destruct (main_solver_arguments (constant_solver [0; 3 # 2; 1]%Q)
              (scenario_args [2; 6]%Q)
              [4; 12; 18]%Q (Np.neg2 (Np.T scenario_A)) [-(3); -(5)]%Q
              (mk_OptimizeResult true [0; 3 # 2; 1]%Q))
    as (A_matrix & Hshaped & _ & HA & _).
  - vm_compute. auto 20.
  - exists A_matrix. split; assumption.
Defined.

Lemma verify_feasibility_raises_on_candidate_length_witness :
  verify_feasibility scenario_A [4; 12; 18]%Q ["<="; "<="; "<="] [2]%Q =
  Raise (ValueError (ShapesNotAligned 2 1)).
Proof.
  apply (verify_feasibility_raises_on_candidate_length scenario_A
           [4; 12; 18]%Q "<=" ["<="; "<="] [2]%Q).
  - split; [reflexivity | repeat constructor].
  - cbn. lia.
  - cbn. lia.
Defined.

Lemma verify_feasibility_with_surplus_signs_witness :
  verify_feasibility unknown_sign_A [1]%Q ["<="; "<="] [0]%Q =
  Raise IndexError.
Proof.
  rewrite (verify_feasibility_with_surplus_signs unknown_sign_A [1]%Q
             ["<="; "<="] [0]%Q).
  - reflexivity.
  - split; [reflexivity | repeat constructor].
  - reflexivity.
  - reflexivity.
  - cbn. lia.
Defined.


Lemma main_infeasible_output_witness :
  fst (main failing_solver (scenario_args [5; 5]%Q)) = Return tt /\
  length (snd (main failing_solver (scenario_args [5; 5]%Q))) = 9.
Proof.
  rewrite (main_infeasible_output failing_solver (scenario_args [5; 5]%Q)
             scenario_A).
  - split; reflexivity.
  - split; reflexivity.
  - reflexivity.
Defined.

(** * The numeric tests on binary64: claims C2, C4 and C10 *)

(** ** Order and NaN on binary64 *)

Lemma Prim2SF_not_nan (f : float) :
  is_nan f = false -> SFis_nan (Prim2SF f) = false.
Proof.
  intro H. unfold Prim2SF. rewrite H.
  destruct (is_zero f); [reflexivity|].
  destruct (is_infinity f); [reflexivity|].
  destruct (Z.frexp f) as [r e].
  destruct (shr_fexp _ _ _ _ _) as [s e'].
  destruct (shr_m s); reflexivity.
Qed.

Lemma is_nan_Prim2SF (f : float) : is_nan f = SFis_nan (Prim2SF f).
Proof.
  destruct (is_nan f) eqn:H.
  - unfold Prim2SF. rewrite H. reflexivity.
  - symmetry. apply Prim2SF_not_nan, H.
Qed.


Lemma Prim2SF_finite (f : float) :
  is_finite f = true -> SFis_finite (Prim2SF f) = true.
Proof.
  unfold is_finite. intro H. apply negb_true_iff, orb_false_iff in H.
  destruct H as [Hnan Hinf]. unfold Prim2SF. rewrite Hnan.
  destruct (is_zero f); [reflexivity|]. rewrite Hinf.
  destruct (Z.frexp f) as [r e].
  destruct (shr_fexp _ _ _ _ _) as [s e'].
  destruct (shr_m s); reflexivity.
Qed.

(** Swapping the operands of a comparison turns its result around. *)
Lemma SFcompare_antisym (x y : spec_float) :
  SFcompare y x = option_map CompOpp (SFcompare x y).
Proof.
  destruct x as [sx|sx| |sx mx ex], y as [sy|sy| |sy my ey]; cbn;
    try reflexivity;
    try (destruct sx; reflexivity); try (destruct sy; reflexivity);
    try (destruct sx, sy; reflexivity).
  destruct sx, sy; try reflexivity; f_equal.
  - rewrite (Z.compare_antisym ey ex).
    destruct (ey ?= ex)%Z; cbn; try reflexivity.
    rewrite CompOpp_involutive. f_equal.
    rewrite Pos.compare_cont_antisym. reflexivity.
  - rewrite (Z.compare_antisym ey ex).
    destruct (ey ?= ex)%Z; cbn; try reflexivity.
    rewrite Pos.compare_cont_antisym. reflexivity.
Qed.

Lemma SFcompare_total (x y : spec_float) :
  SFis_nan x = false -> SFis_nan y = false ->
  exists cmp, SFcompare x y = Some cmp.
Proof.
  destruct x, y; cbn; intros; try discriminate; eauto.
Qed.

(** Without a NaN, [x <= y] fails exactly when [y < x]. *)
Lemma leb_false_ltb (x y : float) :
  is_nan x = false -> is_nan y = false ->
  (x <=? y)%float = false <-> (y <? x)%float = true.
Proof.
  intros Hx Hy. rewrite leb_spec, ltb_spec.
  apply Prim2SF_not_nan in Hx, Hy.
  unfold SFleb, SFltb. rewrite (SFcompare_antisym (Prim2SF x) (Prim2SF y)).
  destruct (SFcompare_total _ _ Hx Hy) as [cmp ->]. cbn.
  destruct cmp; cbn; split; congruence.
Qed.


(** ** Rounding never yields a NaN *)

Section Rounding.

Variables prec emax : Z.

Lemma shr_1_nonneg (mrs : shr_record) :
  (0 <= shr_m mrs)%Z -> (0 <= shr_m (shr_1 mrs))%Z.
Proof.
  destruct mrs as [m r s]. cbn [shr_m]. intro H.
  destruct m as [|p|p]; [cbn; lia | | lia].
  destruct p; cbn; lia.
Qed.

Lemma iter_pos_nonneg (n : positive) (mrs : shr_record) :
  (0 <= shr_m mrs)%Z -> (0 <= shr_m (iter_pos shr_1 n mrs))%Z.
Proof.
  revert mrs. induction n as [n IH|n IH|]; intros mrs H; cbn [iter_pos].
  - apply IH, IH, shr_1_nonneg, H.
  - apply IH, IH, H.
  - apply shr_1_nonneg, H.
Qed.

Lemma shr_fexp_nonneg (m e : Z) (l : location) :
  (0 <= m)%Z -> (0 <= shr_m (fst (shr_fexp prec emax m e l)))%Z.
Proof.
  intro H. unfold shr_fexp, shr.
  assert (H0 : (0 <= shr_m (shr_record_of_loc m l))%Z)
    by (destruct l as [|[]]; exact H).
  destruct (_ - e)%Z; cbn [fst]; [exact H0 | | exact H0].
  apply iter_pos_nonneg, H0.
Qed.

Lemma round_nearest_even_nonneg (m : Z) (l : location) :
  (0 <= m)%Z -> (0 <= round_nearest_even m l)%Z.
Proof.
  intro H. destruct l as [|[]]; cbn; try lia. destruct (Z.even m); lia.
Qed.

Lemma binary_round_aux_not_nan (sx : bool) (m e : Z) (l : location) :
  (0 <= m)%Z -> SFis_nan (binary_round_aux prec emax sx m e l) = false.
Proof.
  intro H. unfold binary_round_aux.
  pose proof (shr_fexp_nonneg m e l H) as H1.
  destruct (shr_fexp prec emax m e l) as [mrs' e']. cbn [fst] in H1.
  pose proof (shr_fexp_nonneg _ e' loc_Exact
                (round_nearest_even_nonneg _ (loc_of_shr_record mrs') H1))
    as H2.
  destruct (shr_fexp prec emax _ e' loc_Exact) as [mrs'' e''].
  cbn [fst] in H2.
  destruct (shr_m mrs''); [reflexivity | | lia].
  destruct (_ <=? _)%Z; reflexivity.
Qed.

Lemma binary_normalize_not_nan (m e : Z) (szero : bool) :
  SFis_nan (binary_normalize prec emax m e szero) = false.
Proof.
  unfold binary_normalize, binary_round.
  destruct m; [reflexivity | |];
    destruct (shl_align _ _ _); apply binary_round_aux_not_nan; lia.
Qed.

Lemma SFsub_finite_not_nan (x y : spec_float) :
  SFis_finite x = true -> SFis_finite y = true ->
  SFis_nan (SFsub prec emax x y) = false.
Proof.
  destruct x as [sx| | |sx mx ex], y as [sy| | |sy my ey]; cbn [SFis_finite];
    intros; try discriminate; cbn [SFsub].
  - destruct sx, sy; reflexivity.
  - reflexivity.
  - reflexivity.
  - apply binary_normalize_not_nan.
Qed.

Lemma SFmul_finite_not_nan (x y : spec_float) :
  SFis_finite x = true -> SFis_finite y = true ->
  SFis_nan (SFmul prec emax x y) = false.
Proof.
  destruct x as [sx| | |sx mx ex], y as [sy| | |sy my ey]; cbn [SFis_finite];
    intros; try discriminate; cbn [SFmul]; try reflexivity.
  apply binary_round_aux_not_nan. lia.
Qed.

Lemma SFadd_finite_not_nan (x y : spec_float) :
  SFis_finite x = true -> SFis_nan y = false ->
  SFis_nan (SFadd prec emax x y) = false.
Proof.
  destruct x as [sx| | |sx mx ex], y as [sy|sy| |sy my ey];
    cbn [SFis_finite SFis_nan]; intros; try discriminate; cbn [SFadd];
    try reflexivity.
  - destruct sx, sy; reflexivity.
  - apply binary_normalize_not_nan.
Qed.

End Rounding.

Lemma SFabs_is_nan (x : spec_float) : SFis_nan (SFabs x) = SFis_nan x.
Proof. destruct x; reflexivity. Qed.

Lemma SFabs_is_finite (x : spec_float) : SFis_finite (SFabs x) = SFis_finite x.
Proof. destruct x; reflexivity. Qed.

(** The distance of two finite floats is a number (possibly [+inf]). *)
Lemma distance_not_nan (a b : float) :
  is_finite a = true -> is_finite b = true ->
  is_nan (abs (a - b)) = false.
Proof.
  intros Ha Hb. rewrite is_nan_Prim2SF, abs_spec, SFabs_is_nan, sub_spec.
  apply SFsub_finite_not_nan; apply Prim2SF_finite; assumption.
Qed.

(** The tolerance around a finite float is a number. *)
Lemma tolerance_not_nan (b : float) :
  is_finite b = true -> is_nan (Binary64.tolerance b) = false.
Proof.
  intro Hb. unfold Binary64.tolerance. rewrite is_nan_Prim2SF, add_spec.
  apply SFadd_finite_not_nan; [reflexivity|].
  rewrite mul_spec. apply SFmul_finite_not_nan; [reflexivity|].
  rewrite abs_spec, SFabs_is_finite. apply Prim2SF_finite, Hb.
Qed.

(** ** The three tests on one row *)

Lemma row_verdict_no_test_fires (sign : string) (lhs rhs : float) :
  Binary64.row_verdict sign lhs rhs = true <->
  Binary64.no_test_fires sign lhs rhs.
Proof.
  unfold Binary64.row_verdict, Binary64.no_test_fires.
  destruct (String.eqb_spec sign "<=") as [-> | Hle].
  { rewrite negb_true_iff. split; [intro H | intros (H & _); auto].
    repeat split; intro; (exact H || discriminate). }
  destruct (String.eqb_spec sign ">=") as [-> | Hge].
  { rewrite negb_true_iff. split; [intro H | intros (_ & H & _); auto].
    repeat split; intro; (exact H || discriminate). }
  destruct (String.eqb_spec sign "=") as [-> | Heq].
  { split; [intro H | intros (_ & _ & H); auto].
    repeat split; intro; (exact H || discriminate). }
  split; [intros _ | reflexivity]. repeat split; intro; contradiction.
Qed.


(** ** The feasibility loop on floats *)

Section Binary64Checks.

Variable inner : list float -> list float -> float.

Lemma float_dot_inner (u v : list float) :
  length u = length v -> Binary64.dot inner u v = Return (inner u v).
Proof.
  intro H. unfold Binary64.dot. rewrite H, Nat.eqb_refl. reflexivity.
Qed.

Lemma float_row_length (A : Binary64.ndarray) (i : nat) :
  Binary64.well_formed A -> i < length (Binary64.rows A) ->
  length (nth i (Binary64.rows A) []) = Binary64.ncols A.
Proof.
  intros [_ Hrows] Hi. rewrite Forall_forall in Hrows.
  apply Hrows, nth_In, Hi.
Qed.

(** One pass of the loop body: the three tests amount to [row_verdict]. *)
Lemma float_verify_rows_step (A : Binary64.ndarray)
    (b possible_sol : list float) (i : nat) (sign : string)
    (rest : list string) :
  Binary64.well_formed A ->
  Binary64.ncols A = length possible_sol ->
  i < length (Binary64.rows A) ->
  i < length b ->
  Binary64.verify_rows inner A b possible_sol i (sign :: rest) =
  if Binary64.row_verdict sign
       (inner (nth i (Binary64.rows A) []) possible_sol) (nth i b 0%float)
  then Binary64.verify_rows inner A b possible_sol (S i) rest
  else Return false.
Proof.
  intros Hwf Hcols Hrow Hb. cbn [Binary64.verify_rows].
  unfold Binary64.row. rewrite (getitem_nth _ _ [] Hrow). cbn [obind].
  rewrite float_dot_inner
    by (rewrite (float_row_length _ _ Hwf Hrow); exact Hcols).
  cbn [obind]. rewrite (getitem_nth _ _ 0%float Hb).
  unfold Binary64.row_verdict.
  destruct (String.eqb_spec sign "<=") as [-> | _]; cbn [obind].
  - destruct (_ <? _)%float; reflexivity.
  - destruct (String.eqb_spec sign ">=") as [-> | _]; cbn [obind].
    + destruct (_ <? _)%float; reflexivity.
    + destruct (String.eqb_spec sign "=") as [-> | _]; cbn [obind].
      * destruct (Binary64.isclose _ _); reflexivity.
      * reflexivity.
Qed.

Lemma float_verify_rows_verdicts (A : Binary64.ndarray)
    (b possible_sol : list float) (rest done : list string) :
  Binary64.well_formed A ->
  Binary64.ncols A = length possible_sol ->
  length done + length rest <= length (Binary64.rows A) ->
  length done + length rest <= length b ->
  Binary64.verify_rows inner A b possible_sol (length done) rest =
  Return (forallb (Binary64.row_verdict_at inner A b (done ++ rest)
                     possible_sol)
            (seq (length done) (length rest))).
Proof.
  intros Hwf Hcols. revert done.
  induction rest as [|sign rest IH]; intros done Hrows Hb.
  - reflexivity.
  - cbn [length] in Hrows, Hb.
    rewrite float_verify_rows_step by (assumption || lia).
    cbn [length seq forallb].
    unfold Binary64.row_verdict_at at 1. rewrite nth_middle.
    destruct (Binary64.row_verdict sign _ _); cbn [andb]; [|reflexivity].
    specialize (IH (done ++ [sign])%list).
    rewrite length_app, <- app_assoc in IH. cbn [length app] in IH.
    rewrite Nat.add_1_r in IH. apply IH; lia.
Qed.

(** With matching dimensions the check returns, and returns the
    conjunction of the row verdicts. *)
Lemma float_verify_feasibility_verdicts (A : Binary64.ndarray)
    (b : list float) (constraint_signs : list string)
    (possible_sol : list float) :
  Binary64.matching_dimensions A b constraint_signs possible_sol ->
  Binary64.verify_feasibility inner A b constraint_signs possible_sol =
  Return (forallb (Binary64.row_verdict_at inner A b constraint_signs
                     possible_sol)
            (seq 0 (length constraint_signs))).
Proof.
  intros (Hwf & Hrows & Hsigns & Hcols).
  unfold Binary64.verify_feasibility.
  apply (float_verify_rows_verdicts A b possible_sol constraint_signs []
           Hwf Hcols).
  - destruct Hwf as [Hlen _]. cbn [length]. lia.
  - cbn [length]. lia.
Qed.

(** A property of row [i], read by index. *)
Lemma row_has_at (holds : string -> float -> float -> Prop)
    (A : Binary64.ndarray) (b : list float) (constraint_signs : list string)
    (possible_sol : list float) (i : nat) :
  Binary64.matching_dimensions A b constraint_signs possible_sol ->
  i < length constraint_signs ->
  Binary64.row_has inner holds A b constraint_signs possible_sol i <->
  holds (nth i constraint_signs "")
    (inner (nth i (Binary64.rows A) []) possible_sol) (nth i b 0%float).
Proof.
  intros (Hwf & Hrows & Hsigns & Hcols) Hi.
  assert (Hrow : i < length (Binary64.rows A)) by (destruct Hwf; lia).
  assert (Hb : i < length b) by lia.
  assert (Hdot : Binary64.dot inner (nth i (Binary64.rows A) []) possible_sol
                 = Return (inner (nth i (Binary64.rows A) []) possible_sol)).
  { apply float_dot_inner. rewrite (float_row_length _ _ Hwf Hrow).
    exact Hcols. }
  unfold Binary64.row_has, Binary64.row.
  rewrite (getitem_nth _ _ [] Hrow), (getitem_nth _ _ "" Hi),
    (getitem_nth _ _ 0%float Hb).
  split.
  - intros (r & sign & rhs_i & lhs & Hr & Hs & Hrhs & Hlhs & Hrel).
    injection Hr as <-. injection Hs as <-. injection Hrhs as <-.
    rewrite Hdot in Hlhs. injection Hlhs as <-. exact Hrel.
  - intro Hrel. do 4 eexists.
    repeat (split; [reflexivity || exact Hdot|]). exact Hrel.
Qed.

(** The verdict on row [i] says that no test fires on it. *)
Lemma row_passes_verdict (A : Binary64.ndarray) (b : list float)
    (constraint_signs : list string) (possible_sol : list float) (i : nat) :
  Binary64.matching_dimensions A b constraint_signs possible_sol ->
  i < length constraint_signs ->
  Binary64.row_passes inner A b constraint_signs possible_sol i <->
  Binary64.row_verdict_at inner A b constraint_signs possible_sol i = true.
Proof.
  intros Hdim Hi. unfold Binary64.row_passes.
  rewrite (row_has_at _ _ _ _ _ _ Hdim Hi).
  unfold Binary64.row_verdict_at. symmetry. apply row_verdict_no_test_fires.
Qed.

Lemma verdicts_iff_rows_pass (A : Binary64.ndarray) (b : list float)
    (constraint_signs : list string) (possible_sol : list float) :
  Binary64.matching_dimensions A b constraint_signs possible_sol ->
  forallb (Binary64.row_verdict_at inner A b constraint_signs possible_sol)
    (seq 0 (length constraint_signs)) = true <->
  forall i, i < length constraint_signs ->
    Binary64.row_passes inner A b constraint_signs possible_sol i.
Proof.
  intro Hdim. rewrite forallb_forall. split; intros H i Hi.
  - apply (row_passes_verdict _ _ _ _ _ Hdim Hi). apply H, in_seq. lia.
  - apply in_seq in Hi. assert (Hlt : i < length constraint_signs) by lia.
    apply (row_passes_verdict _ _ _ _ _ Hdim Hlt). apply H, Hlt.
Qed.

(** ** The feasibility check: claims C2 and C10 *)


(** C10. With matching dimensions the feasibility check returns a boolean
    for any list of relation symbols, never an exception.  A row whose
    symbol is outside [<=], [>=], [=] matches none of the three tests and
    passes: the verdict is [true] exactly when no test fires on the rows
    whose symbol is one of the three. *)
Theorem verify_feasibility_skips_unknown_signs (A : Binary64.ndarray)
    (b : list float) (constraint_signs : list string)
    (possible_sol : list float) :
  Binary64.matching_dimensions A b constraint_signs possible_sol ->
  exists verdict : bool,
    Binary64.verify_feasibility inner A b constraint_signs possible_sol =
      Return verdict /\
    (forall i, i < length constraint_signs ->
       ~ valid_sign (nth i constraint_signs "") ->
       Binary64.row_passes inner A b constraint_signs possible_sol i) /\
    (verdict = true <->
     forall i, i < length constraint_signs ->
       valid_sign (nth i constraint_signs "") ->
       Binary64.row_passes inner A b constraint_signs possible_sol i).
Proof.
  intro Hdim.
  pose proof (verdicts_iff_rows_pass A b constraint_signs possible_sol Hdim)
    as Hiff.
  assert (Hunknown : forall i, i < length constraint_signs ->
            ~ valid_sign (nth i constraint_signs "") ->
            Binary64.row_passes inner A b constraint_signs possible_sol i).
  { intros i Hi Hnot. unfold Binary64.row_passes.
    apply (row_has_at _ _ _ _ _ _ Hdim Hi).
    unfold valid_sign in Hnot.
    repeat split; intro Hsign; exfalso; apply Hnot; auto. }
  eexists. split; [apply float_verify_feasibility_verdicts, Hdim|].
  split; [exact Hunknown|]. rewrite Hiff.
  split; intros H i Hi; [intros _; apply H, Hi|].
  destruct (valid_sign_dec (nth i constraint_signs "")) as [Hvalid | Hnot].
  - apply H; assumption.
  - apply Hunknown; assumption.
Qed.

(** ** The optimality check: claim C4 *)

(** C4, amended. For points and vectors of matching dimensions the
    optimality check returns
    [primalObjectiveValue = dot(objective, primalPoint)],
    [dualObjectiveValue = dot(rhs, dualPoint)] and
    [isOptimal = np.isclose] of the two.  When both values are finite,
    [isOptimal] is [true] exactly when their distance is within the
    tolerance [atol + rtol * |dualObjectiveValue|] and [false] exactly
    when the distance exceeds it; when a value is infinite or NaN,
    [isOptimal] is [true] exactly when the two are equal. *)
Theorem check_optimality_isclose_report
    (primal_sol dual_sol c b : list float) :
  length c = length primal_sol ->
  length b = length dual_sol ->
  exists (is_optimal : bool) (primal_obj_value dual_obj_value : float),
    Binary64.check_optimality inner primal_sol dual_sol c b =
      Return (is_optimal, primal_obj_value, dual_obj_value) /\
    Binary64.dot inner c primal_sol = Return primal_obj_value /\
    Binary64.dot inner b dual_sol = Return dual_obj_value /\
    is_optimal = Binary64.isclose primal_obj_value dual_obj_value /\
    (is_finite primal_obj_value = true ->
     is_finite dual_obj_value = true ->
     (is_optimal = true <->
      (abs (primal_obj_value - dual_obj_value) <=?
       Binary64.tolerance dual_obj_value)%float = true) /\
     (is_optimal = false <->
      (Binary64.tolerance dual_obj_value <?
       abs (primal_obj_value - dual_obj_value))%float = true)) /\
    (is_finite primal_obj_value && is_finite dual_obj_value = false ->
     is_optimal = (primal_obj_value =? dual_obj_value)%float).
Proof.
  intros Hc Hb.
  exists (Binary64.isclose (inner c primal_sol) (inner b dual_sol)),
    (inner c primal_sol), (inner b dual_sol).
  unfold Binary64.check_optimality.
  rewrite (float_dot_inner _ _ Hc), (float_dot_inner _ _ Hb). cbn [obind].
  repeat (split; [reflexivity|]). split.
  - intros Hp Hd. unfold Binary64.isclose. rewrite Hp, Hd. cbn [andb].
    unfold Binary64.within_tol. split; [reflexivity|].
    apply leb_false_ltb;
      [apply distance_not_nan; assumption | apply tolerance_not_nan, Hd].
  - intro Hnot. unfold Binary64.isclose. rewrite Hnot. reflexivity.
Qed.

End Binary64Checks.

(** ** Where the claims as stated fail *)


(** C4 as stated fails on equal infinities: [1e308 * 10] and
    [1e308 * 100] both overflow to [+inf], [np.isclose] answers [true],
    and the distance of the two values is NaN, which is within no
    tolerance. *)
Lemma check_optimality_equal_infinities :
  Binary64.check_optimality Binary64.inner_sequential
    [10]%float [100]%float [Binary64.huge] [Binary64.huge] =
    Return (true, infinity, infinity) /\
  (abs (infinity - infinity) <=? Binary64.tolerance infinity)%float = false.
Proof. split; vm_compute; reflexivity. Qed.

(** ** The amended claims at concrete inputs *)


Lemma verify_feasibility_skips_unknown_signs_witness :
  Binary64.verify_feasibility Binary64.inner_sequential
    Binary64.unknown_sign_A [1]%float ["!="] [5]%float = Return true.
Proof.
  destruct (verify_feasibility_skips_unknown_signs Binary64.inner_sequential
              Binary64.unknown_sign_A [1]%float ["!="] [5]%float)
    as (verdict & Hcheck & _ & Hiff).
  - repeat split; try reflexivity. repeat constructor.
  - rewrite Hcheck. f_equal. apply Hiff. intros i Hi Hvalid.
    cbn in Hi. assert (i = 0) as -> by lia.
    destruct Hvalid as [H | [H | H]]; discriminate H.
Defined.

Lemma check_optimality_isclose_report_witness :
  exists (is_optimal : bool) (p d : float),
    Binary64.check_optimality Binary64.inner_sequential
      [2; 6]%float [0; 1.5; 1]%float [3; 5]%float [4; 12; 18]%float =
      Return (is_optimal, p, d) /\
    (is_optimal = true <->
     (abs (p - d) <=? Binary64.tolerance d)%float = true).
Proof.
  destruct (check_optimality_isclose_report Binary64.inner_sequential
              [2; 6]%float [0; 1.5; 1]%float [3; 5]%float [4; 12; 18]%float)
    as (is_optimal & p & d & Hreport & Hp & Hd & _ & Hfinite & _).
  - reflexivity.
  - reflexivity.
  - exists is_optimal, p, d. split; [exact Hreport|].
    vm_compute in Hp, Hd. injection Hp as <-. injection Hd as <-.
    destruct (Hfinite eq_refl eq_refl) as [Hclose _]. exact Hclose.
Defined.
